(** * Nepali compound-interest calculator: a shallow embedding of
    [src/app/page.tsx] and the properties of its calculation core.

    The development follows the source top to bottom: the BS date
    utilities ([parseBSDate], [calculateBSDateDifference]), the accrual
    function [calculateNepaliInterest] and the React handler
    [handleCalculate].

    Numbers.  A JavaScript [number] is an IEEE 754 binary64 value; it is
    modelled by Rocq's primitive [float], whose operations are the same
    binary64 operations with rounding to nearest, ties to even.  The
    calculation is written over the interface [JSNumber] of the
    operations the source applies to numbers; its instance is [float],
    what the program computes.  What the calculation keeps of the order
    of numbers is derived from the definition of binary64 rounding in
    [SpecFloat], not from a reading in exact arithmetic.

    Dates.  The components of a BS date and of a duration are integers of
    at most four digits once the date strings have passed the pattern
    test of [handleCalculate]; on such values binary64 arithmetic is
    exact, and they are modelled by [Z]. *)

From Stdlib Require Import ZArith Floats.
From Stdlib Require Import String Ascii DecimalString List Bool Lia.
From Stdlib Require DecimalPos DecimalZ.
Import ListNotations.

#[local] Set Warnings "-inexact-float".
#[local] Open Scope string_scope.
#[local] Open Scope list_scope.
#[local] Open Scope Z_scope.

(* ================================================================== *)
(** * Thrown errors                                                    *)
(* ================================================================== *)

(** A call either returns a value or throws [new Error(message)]. *)
Inductive completion (A : Type) : Type :=
| Return (a : A)
| Throw (message : string).
Arguments Return {A} a.
Arguments Throw {A} message.

Definition bind {A B : Type} (c : completion A) (k : A -> completion B)
  : completion B :=
  match c with
  | Return a => k a
  | Throw m => Throw m
  end.

Definition throws {A : Type} (c : completion A) (m : string) : Prop :=
  c = Throw m.

Definition returns {A : Type} (c : completion A) : Prop :=
  exists a, c = Return a.

(** The messages of the four [throw] statements of the calculation core
    and of the three of [handleCalculate]. *)
Definition ordering_message := "End date must be after start date".
Definition principal_message := "Principal must be greater than 0".
Definition rate_message := "Interest rate cannot be negative".
Definition ui_principal_message :=
  "Please enter a valid principal amount greater than 0".
Definition ui_rate_message :=
  "Please enter a valid interest rate (0 or greater)".
Definition ui_date_message :=
  "Please enter dates in YYYY-MM-DD format (BS calendar)".

(* ================================================================== *)
(** * Strings                                                          *)
(* ================================================================== *)

(** A JavaScript string whose code units are all below 256 is the Rocq
    string of the same codes. *)

Definition code (c : ascii) : Z := Z.of_N (N_of_ascii c).

Definition isDigit (c : ascii) : bool := (48 <=? code c) && (code c <=? 57).

Definition isHyphen (c : ascii) : bool := code c =? 45.

(** [s.split('-')]. *)
Fixpoint split_hyphen (s : string) : list string :=
  match s with
  | EmptyString => [EmptyString]
  | String c s' =>
      if isHyphen c then EmptyString :: split_hyphen s'
      else match split_hyphen s' with
           | [] => [String c EmptyString]
           | piece :: pieces => String c piece :: pieces
           end
  end.

Fixpoint digits_value (acc : Z) (s : string) : Z :=
  match s with
  | EmptyString => acc
  | String c s' => digits_value (10 * acc + (code c - 48)) s'
  end.

(** [Number(s)] for a string of decimal digits (the empty string gives 0,
    as in JavaScript).  Other strings, on which JavaScript answers [NaN]
    or reads another notation, are outside the domain of the model; they
    never reach [parseBSDate] through [handleCalculate]. *)
Definition Number (s : string) : Z := digits_value 0 s.

(** The template literal [`${n}`] for an integer [n]. *)
Definition string_of_Z (n : Z) : string := NilZero.string_of_int (Z.to_int n).

(** [/^\d{4}-\d{2}-\d{2}$/.test(s)]. *)
Definition datePattern_test (s : string) : bool :=
  match list_ascii_of_string s with
  | [y1; y2; y3; y4; h1; m1; m2; h2; d1; d2] =>
      isDigit y1 && isDigit y2 && isDigit y3 && isDigit y4 && isHyphen h1
      && isDigit m1 && isDigit m2 && isHyphen h2 && isDigit d1 && isDigit d2
  | _ => false
  end.

(** [parts.join(' ')]. *)
Fixpoint join_space (parts : list string) : string :=
  match parts with
  | [] => ""
  | [p] => p
  | p :: rest => (p ++ " " ++ join_space rest)%string
  end.

(* ================================================================== *)
(** * BS (Bikram Sambat) date utilities                                *)
(* ================================================================== *)

Definition BS_DAYS_PER_MONTH : Z := 30.
Definition BS_MONTHS_PER_YEAR : Z := 12.
Definition BS_DAYS_PER_YEAR : Z := 365.

Record BSDate : Type := { year : Z; month : Z; day : Z }.

Record Duration : Type := { years : Z; months : Z; days : Z }.

(** [const [year, month, day] = dateString.split('-').map(Number)].  A
    missing component is [undefined] in JavaScript; that only happens for
    strings that fail the date pattern, outside the domain of the model
    (0 is returned there). *)
Definition parseBSDate (dateString : string) : BSDate :=
  let parts := map Number (split_hyphen dateString) in
  {| year := nth 0 parts 0; month := nth 1 parts 0; day := nth 2 parts 0 |}.

(** The test of lines 62-66: the end date comes before the start date. *)
Definition end_before_start (start end_ : BSDate) : bool :=
  (year end_ <? year start)
  || ((year end_ =? year start) && (month end_ <? month start))
  || ((year end_ =? year start) && (month end_ =? month start)
      && (day end_ <? day start)).

(** The body of [calculateBSDateDifference] once both strings are parsed. *)
Definition dateDifference (start end_ : BSDate) : completion Duration :=
  if end_before_start start end_ then Throw ordering_message
  else
    let years := year end_ - year start in
    let months := month end_ - month start in
    let days := day end_ - day start in
    let '(months, days) :=
      if days <? 0 then (months - 1, days + BS_DAYS_PER_MONTH)
      else (months, days) in
    let '(years, months) :=
      if months <? 0 then (years - 1, months + BS_MONTHS_PER_YEAR)
      else (years, months) in
    Return {| years := years; months := months; days := days |}.

Definition calculateBSDateDifference (startDateStr endDateStr : string)
  : completion Duration :=
  let start := parseBSDate startDateStr in
  let end_ := parseBSDate endDateStr in
  dateDifference start end_.

(* ================================================================== *)
(** * The number interface                                             *)
(* ================================================================== *)

(** The operations of JavaScript numbers that the calculation uses.
    [num_of_Z n] is the number denoted by the integer literal [n], or the
    number held by an integer-valued date component. *)
Class JSNumber (num : Type) : Type := {
  num_of_Z : Z -> num;
  num_add : num -> num -> num;
  num_sub : num -> num -> num;
  num_mul : num -> num -> num;
  num_div : num -> num -> num;
  num_ltb : num -> num -> bool;
  num_leb : num -> num -> bool;
  Math_round : num -> num
}.

Declare Scope num_scope.
Delimit Scope num_scope with num.
Notation "x + y" := (num_add x y) : num_scope.
Notation "x - y" := (num_sub x y) : num_scope.
Notation "x * y" := (num_mul x y) : num_scope.
Notation "x / y" := (num_div x y) : num_scope.
Notation "x <? y" := (num_ltb x y) : num_scope.
Notation "x <=? y" := (num_leb x y) : num_scope.

(** A numeric literal of the source, such as [100], is written [lit 100]. *)
Abbreviation lit := num_of_Z (only parsing).

(* ================================================================== *)
(** * Nepali interest calculation logic                                *)
(* ================================================================== *)

Section Calculation.
Context {num : Type} {JSN : JSNumber num}.
#[local] Open Scope num_scope.

(** The [details] field of the source is a display string assembled
    with [toFixed(2)]; nothing below reads it and it is left out. *)
Record BreakdownEntry : Type := {
  period : string;
  startingPrincipal : num;
  interest : num;
  endingAmount : num
}.

Record CalculationResult : Type := {
  finalAmount : num;
  totalInterest : num;
  timeDuration : Duration;
  breakdown : list BreakdownEntry
}.

(** Lines 102-104. *)
Definition isMonthlyRate (interestRate : num) : bool := interestRate <? lit 10.

Definition monthlyRate (interestRate : num) : num :=
  if isMonthlyRate interestRate then interestRate else interestRate / lit 12.

Definition annualRate (interestRate : num) : num :=
  if isMonthlyRate interestRate then interestRate * lit 12 else interestRate.

(** Line 110. *)
Definition yearlyInterest (currentPrincipal annualRate : num) : num :=
  (currentPrincipal * annualRate) / lit 100.

(** One turn of the [for] loop, lines 110-121. *)
Definition yearStep (annualRate : num) (year : Z)
    (state : num * list BreakdownEntry) : num * list BreakdownEntry :=
  let '(currentPrincipal, breakdown) := state in
  let interest := yearlyInterest currentPrincipal annualRate in
  let newAmount := currentPrincipal + interest in
  (newAmount,
   breakdown ++ [ {| period := ("Year " ++ string_of_Z year)%string;
                     startingPrincipal := currentPrincipal;
                     interest := interest;
                     endingAmount := newAmount |} ]).

(** [for (let year = 1; year <= dateDiff.years; year++)].  The loop is
    given as many turns as it can take, [dateDiff.years] (none when that
    is zero or negative), and leaves when its condition fails. *)
Fixpoint yearLoop (turns : nat) (year years : Z) (annualRate : num)
    (state : num * list BreakdownEntry) : num * list BreakdownEntry :=
  match turns with
  | O => state
  | S turns' =>
      if (year <=? years)%Z
      then yearLoop turns' (year + 1)%Z years annualRate
             (yearStep annualRate year state)
      else state
  end.

(** Lines 125-131. *)
Definition monthlyInterestAmount (currentPrincipal monthlyRate : num) : num :=
  (currentPrincipal * monthlyRate) / lit 100.

Definition monthsInterest (currentPrincipal monthlyRate : num)
    (dateDiff : Duration) : num :=
  monthlyInterestAmount currentPrincipal monthlyRate * lit (months dateDiff).

Definition dailyInterestAmount (currentPrincipal monthlyRate : num) : num :=
  monthlyInterestAmount currentPrincipal monthlyRate / lit BS_DAYS_PER_MONTH.

Definition daysInterest (currentPrincipal monthlyRate : num)
    (dateDiff : Duration) : num :=
  dailyInterestAmount currentPrincipal monthlyRate * lit (days dateDiff).

Definition partialInterest (currentPrincipal monthlyRate : num)
    (dateDiff : Duration) : num :=
  monthsInterest currentPrincipal monthlyRate dateDiff
  + daysInterest currentPrincipal monthlyRate dateDiff.

(** Lines 134-136 and 148. *)
Definition periodLabel (dateDiff : Duration) : string :=
  let m := months dateDiff in
  let d := days dateDiff in
  join_space
    ((if (m >? 0)%Z
      then [(string_of_Z m ++ " month"
               ++ (if (m >? 1)%Z then "s" else ""))%string]
      else [])
     ++
     (if (d >? 0)%Z
      then [(string_of_Z d ++ " day"
               ++ (if (d >? 1)%Z then "s" else ""))%string]
      else [])).

Definition hasPartialPeriod (dateDiff : Duration) : bool :=
  ((months dateDiff >? 0) || (days dateDiff >? 0))%Z.

(** The trailing period, lines 124-156. *)
Definition partialStep (monthlyRate : num) (dateDiff : Duration)
    (state : num * list BreakdownEntry) : num * list BreakdownEntry :=
  let '(currentPrincipal, breakdown) := state in
  if hasPartialPeriod dateDiff then
    let interest := partialInterest currentPrincipal monthlyRate dateDiff in
    let newAmount := currentPrincipal + interest in
    (newAmount,
     breakdown ++ [ {| period := periodLabel dateDiff;
                       startingPrincipal := currentPrincipal;
                       interest := interest;
                       endingAmount := newAmount |} ])
  else state.

(** Lines 102-156: the value of [currentPrincipal] and of [breakdown]
    when line 158 is reached. *)
Definition accrue (principal interestRate : num) (dateDiff : Duration)
  : num * list BreakdownEntry :=
  partialStep (monthlyRate interestRate) dateDiff
    (yearLoop (Z.to_nat (years dateDiff)) 1 (years dateDiff)
       (annualRate interestRate) (principal, [])).

(** [Math.round(x * 100) / 100]. *)
Definition round2 (x : num) : num := Math_round (x * lit 100) / lit 100.

Definition calculateNepaliInterest (principal interestRate : num)
    (startDate endDate : string) : completion CalculationResult :=
  if principal <=? lit 0 then Throw principal_message
  else if interestRate <? lit 0 then Throw rate_message
  else
    bind (calculateBSDateDifference startDate endDate) (fun dateDiff =>
      let '(finalAmount, breakdown) := accrue principal interestRate dateDiff in
      let totalInterest := finalAmount - principal in
      Return {| finalAmount := round2 finalAmount;
                totalInterest := round2 totalInterest;
                timeDuration := dateDiff;
                breakdown := breakdown |}).
End Calculation.

Arguments BreakdownEntry num : clear implicits.
Arguments CalculationResult num : clear implicits.

(* ================================================================== *)
(** * JavaScript numbers: binary64                                     *)
(* ================================================================== *)

(** The binary64 value nearest to an integer (ties to even; an integer
    too large for the format rounds to an infinity).  It is exact up to
    2^53 in magnitude. *)
Definition float_of_Z (n : Z) : float :=
  SF2Prim (binary_normalize prec emax n 0 false).

(** [Math.round(x)]: the integer nearest to [x], a tie going towards
    positive infinity; [NaN], the infinities, the zeros and the integral
    values are returned unchanged, and a result of zero keeps the sign of
    [x].  For [x = s * m * 2^e] with [e < 0] the integer is
    [floor (x + 1/2)], computed exactly. *)
Definition float_Math_round (x : float) : float :=
  match Prim2SF x with
  | S754_finite s m e =>
      if 0 <=? e then x
      else
        let signed := if s then Zneg m else Zpos m in
        let n := (2 * signed + 2 ^ (- e)) / 2 ^ (- e + 1) in
        if n =? 0 then (if s then neg_zero else PrimFloat.zero)
        else float_of_Z n
  | _ => x
  end.

#[export] Instance float_JSNumber : JSNumber float := {|
  num_of_Z := float_of_Z;
  num_add := PrimFloat.add;
  num_sub := PrimFloat.sub;
  num_mul := PrimFloat.mul;
  num_div := PrimFloat.div;
  num_ltb := PrimFloat.ltb;
  num_leb := PrimFloat.leb;
  Math_round := float_Math_round
|}.

(** [isNaN(x)] for a number [x]. *)
Definition isNaN (x : float) : bool := PrimFloat.is_nan x.

(** ** [parseFloat] *)

(** The white space and line terminators below code 256. *)
Definition isWhiteSpace (c : ascii) : bool :=
  ((9 <=? code c) && (code c <=? 13)) || (code c =? 32) || (code c =? 160).

Fixpoint trimStart (s : string) : string :=
  match s with
  | EmptyString => EmptyString
  | String c s' => if isWhiteSpace c then trimStart s' else s
  end.

(** The longest prefix of decimal digits, and what follows it. *)
Fixpoint span_digits (s : string) : string * string :=
  match s with
  | EmptyString => (EmptyString, EmptyString)
  | String c s' =>
      if isDigit c
      then let '(ds, rest) := span_digits s' in (String c ds, rest)
      else (EmptyString, s)
  end.

(** The value of a leading [ExponentPart] ([e] or [E], an optional sign,
    at least one digit), or 0 when there is none. *)
Definition exponent_part (s : string) : Z :=
  match s with
  | String c r =>
      if (code c =? 101) || (code c =? 69) then
        match r with
        | String sign r' =>
            if code sign =? 43 then Number (fst (span_digits r'))
            else if code sign =? 45 then - Number (fst (span_digits r'))
            else Number (fst (span_digits r))
        | EmptyString => 0
        end
      else 0
  | EmptyString => 0
  end.

(** The binary64 value nearest to [(-1)^neg * m * 10^e], for [0 <= m]. *)
Definition decimal_to_float (neg : bool) (m e : Z) : float :=
  match m with
  | Zpos p =>
      if 0 <=? e
      then float_of_Z ((if neg then Zneg p else Zpos p) * 10 ^ e)
      else SF2Prim (SFdiv prec emax (S754_finite neg p 0)
                      (S754_finite false (Z.to_pos (10 ^ (- e))) 0))
  | _ => if neg then neg_zero else PrimFloat.zero
  end.

(** The longest prefix that is a [StrUnsignedDecimalLiteral]:
    [Infinity], or digits with an optional fraction and exponent. *)
Definition unsigned_decimal (neg : bool) (s : string) : float :=
  if String.prefix "Infinity" s then (if neg then neg_infinity else infinity)
  else
    let '(int_digits, after_int) := span_digits s in
    let '(frac_digits, after_frac) :=
      match after_int with
      | String c r => if code c =? 46 then span_digits r
                      else (EmptyString, after_int)
      | EmptyString => (EmptyString, EmptyString)
      end in
    match (int_digits ++ frac_digits)%string with
    | EmptyString => nan
    | ds => decimal_to_float neg (Number ds)
              (exponent_part after_frac - Z.of_nat (String.length frac_digits))
    end.

(** [parseFloat(s)]: leading white space is skipped, the longest numeric
    prefix is read and what follows it is ignored; [NaN] when there is no
    such prefix. *)
Definition parseFloat (s : string) : float :=
  match trimStart s with
  | String c r =>
      if code c =? 43 then unsigned_decimal false r
      else if code c =? 45 then unsigned_decimal true r
      else unsigned_decimal false (String c r)
  | EmptyString => nan
  end.

(* ================================================================== *)
(** * The React component: [handleCalculate]                          *)
(* ================================================================== *)

Record CalculatorInputs : Type := {
  principal : string;
  interestRate : string;
  startDate : string;
  endDate : string
}.

(** The state variables that [handleCalculate] reads or sets. *)
Record ComponentState : Type := {
  inputs : CalculatorInputs;
  result : option (CalculationResult float);
  error : string
}.

Definition setError (message : string) (st : ComponentState) : ComponentState :=
  {| inputs := inputs st; result := result st; error := message |}.

Definition setResult (r : option (CalculationResult float))
    (st : ComponentState) : ComponentState :=
  {| inputs := inputs st; result := r; error := error st |}.

(** Lines 207-227, the statements of the [try] block after [setError('')]
    up to the value handed to [setResult]. *)
Definition tryCalculate (inp : CalculatorInputs)
  : completion (CalculationResult float) :=
  let principal := parseFloat (principal inp) in
  let interestRate := parseFloat (interestRate inp) in
  if isNaN principal || (principal <=? 0)%float
  then Throw ui_principal_message
  else if isNaN interestRate || (interestRate <? 0)%float
  then Throw ui_rate_message
  else if negb (datePattern_test (startDate inp))
          || negb (datePattern_test (endDate inp))
  then Throw ui_date_message
  else calculateNepaliInterest principal interestRate
         (startDate inp) (endDate inp).

(** Lines 203-234.  Every value thrown is an [Error], so the [catch]
    block stores its message. *)
Definition handleCalculate (st : ComponentState) : ComponentState :=
  let st := setError "" st in
  match tryCalculate (inputs st) with
  | Return calculationResult => setResult (Some calculationResult) st
  | Throw message => setResult None (setError message st)
  end.
(* ================================================================== *)
(** * The React component: the other handlers                          *)
(* ================================================================== *)

(** [keyof CalculatorInputs]. *)
Inductive InputField : Type :=
| principal_field
| interestRate_field
| startDate_field
| endDate_field.

(** [inp[field]]. *)
Definition field_value (field : InputField) (inp : CalculatorInputs) : string :=
  match field with
  | principal_field => principal inp
  | interestRate_field => interestRate inp
  | startDate_field => startDate inp
  | endDate_field => endDate inp
  end.

(** [{ ...prev, [field]: value }]. *)
Definition set_field (field : InputField) (value : string)
    (prev : CalculatorInputs) : CalculatorInputs :=
  match field with
  | principal_field =>
      {| principal := value; interestRate := interestRate prev;
         startDate := startDate prev; endDate := endDate prev |}
  | interestRate_field =>
      {| principal := principal prev; interestRate := value;
         startDate := startDate prev; endDate := endDate prev |}
  | startDate_field =>
      {| principal := principal prev; interestRate := interestRate prev;
         startDate := value; endDate := endDate prev |}
  | endDate_field =>
      {| principal := principal prev; interestRate := interestRate prev;
         startDate := startDate prev; endDate := value |}
  end.

(** Lines 198-201. *)
Definition handleInputChange (field : InputField) (value : string)
    (st : ComponentState) : ComponentState :=
  setError ""
    {| inputs := set_field field value (inputs st);
       result := result st; error := error st |}.

(** The values of [currentView]. *)
Inductive View : Type :=
| calculator
| saved
| about
| started.

(** The interface [SavedCalculation]. *)
Module SavedCalculation.
Record t : Type := {
  id : string;
  timestamp : Z;
  inputs : CalculatorInputs;
  result : CalculationResult float;
  name : string
}.
End SavedCalculation.

(** The five state variables of the component other than [inputs],
    [result] and [error], which [calculation] holds. *)
Record PageState : Type := {
  calculation : ComponentState;
  savedCalculations : list SavedCalculation.t;
  currentView : View;
  mobileMenuOpen : bool
}.

(** What a handler does to the world outside the component state.  The
    value written to [localStorage] is recorded as the list handed to
    [JSON.stringify], not as its text. *)
Inductive Effect : Type :=
| setItem (key : string) (value : list SavedCalculation.t)
| alert (message : string).

Definition storage_key : string := "nepaliInterestCalculations".

(** Lines 236-254.  [promptAnswer] is what [prompt] returns ([None] for
    [null], when the dialog is cancelled); [now_id] and [now_timestamp]
    are the values of the two calls of [Date.now()], integers whose
    [toString()] is their decimal notation.  The prompt is shown only
    when there is a result. *)
Definition handleSaveCalculation (promptAnswer : option string)
    (now_id now_timestamp : Z) (st : PageState) : PageState * list Effect :=
  match result (calculation st) with
  | None => (st, [])
  | Some res =>
      match promptAnswer with
      | None => (st, [])
      | Some EmptyString => (st, [])
      | Some name =>
          let newCalculation :=
            {| SavedCalculation.id := string_of_Z now_id;
               SavedCalculation.timestamp := now_timestamp;
               SavedCalculation.inputs := inputs (calculation st);
               SavedCalculation.result := res;
               SavedCalculation.name := name |} in
          let updated := savedCalculations st ++ [newCalculation] in
          ({| calculation := calculation st;
              savedCalculations := updated;
              currentView := currentView st;
              mobileMenuOpen := mobileMenuOpen st |},
           [setItem storage_key updated;
            alert "Calculation saved successfully!"])
      end
  end.

(** Lines 256-261. *)
Definition handleLoadCalculation (calc : SavedCalculation.t)
    (st : PageState) : PageState :=
  {| calculation :=
       setResult (Some (SavedCalculation.result calc))
         {| inputs := SavedCalculation.inputs calc;
            result := result (calculation st);
            error := error (calculation st) |};
     savedCalculations := savedCalculations st;
     currentView := calculator;
     mobileMenuOpen := false |}.

(** Lines 263-269.  [confirmed] is what [confirm] returns. *)
Definition handleDeleteCalculation (confirmed : bool) (id : string)
    (st : PageState) : PageState * list Effect :=
  if negb confirmed then (st, [])
  else
    let updated :=
      filter (fun c => negb (String.eqb (SavedCalculation.id c) id))
        (savedCalculations st) in
    ({| calculation := calculation st;
        savedCalculations := updated;
        currentView := currentView st;
        mobileMenuOpen := mobileMenuOpen st |},
     [setItem storage_key updated]).

(** The [onClick] of a [NavButton], lines 273-276. *)
Definition navigate (view : View) (st : PageState) : PageState :=
  {| calculation := calculation st;
     savedCalculations := savedCalculations st;
     currentView := view;
     mobileMenuOpen := false |}.

(** The [onClick] of the menu button, line 312. *)
Definition toggleMobileMenu (st : PageState) : PageState :=
  {| calculation := calculation st;
     savedCalculations := savedCalculations st;
     currentView := currentView st;
     mobileMenuOpen := negb (mobileMenuOpen st) |}.

(** What the user can do on the page, with what the dialogs and the
    clock answer. *)
Inductive Action : Type :=
| InputChange (field : InputField) (value : string)
| Calculate
| Save (promptAnswer : option string) (now_id now_timestamp : Z)
| Load (calc : SavedCalculation.t)
| Delete (confirmed : bool) (id : string)
| Navigate (view : View)
| ToggleMenu.

Definition on_calculation (f : ComponentState -> ComponentState)
    (st : PageState) : PageState :=
  {| calculation := f (calculation st);
     savedCalculations := savedCalculations st;
     currentView := currentView st;
     mobileMenuOpen := mobileMenuOpen st |}.

Definition step (a : Action) (st : PageState) : PageState * list Effect :=
  match a with
  | InputChange field value =>
      (on_calculation (handleInputChange field value) st, [])
  | Calculate => (on_calculation handleCalculate st, [])
  | Save answer now_id now_timestamp =>
      handleSaveCalculation answer now_id now_timestamp st
  | Load calc => (handleLoadCalculation calc st, [])
  | Delete confirmed id => handleDeleteCalculation confirmed id st
  | Navigate view => (navigate view st, [])
  | ToggleMenu => (toggleMobileMenu st, [])
  end.

(** A sequence of actions, with the effects in the order they happen. *)
Fixpoint run (actions : list Action) (st : PageState)
  : PageState * list Effect :=
  match actions with
  | [] => (st, [])
  | a :: rest =>
      let '(st', effects) := step a st in
      let '(st'', effects') := run rest st' in
      (st'', effects ++ effects')
  end.

(** The state the component is created with (lines 174-185). *)
Definition initial_state : PageState :=
  {| calculation :=
       {| inputs := {| principal := "100000"; interestRate := "3";
                       startDate := "2078-01-01"; endDate := "2080-04-04" |};
          result := None; error := "" |};
     savedCalculations := [];
     currentView := calculator;
     mobileMenuOpen := false |}.

(* ================================================================== *)
(** * Specification-side vocabulary                                    *)
(* ================================================================== *)

(** [a] comes strictly before [b] in the lexicographic order on
    (year, month, day). *)
Definition BSDate_lt (a b : BSDate) : Prop :=
  year a < year b
  \/ (year a = year b
      /\ (month a < month b \/ (month a = month b /\ day a < day b))).

(** A date of the fixed-radix calendar: months 1-12, days 1-30. *)
Definition valid_BSDate (d : BSDate) : Prop :=
  1 <= month d <= 12 /\ 1 <= day d <= 30.

(** What the pattern test guarantees of the parsed components. *)
Definition four_two_two (d : BSDate) : Prop :=
  0 <= year d <= 9999 /\ 0 <= month d <= 99 /\ 0 <= day d <= 99.

Section Ledger.
Context {num : Type} {JSN : JSNumber num}.
#[local] Open Scope num_scope.

(** The entries that [turns] turns of the year loop append when it is
    entered in year [year] with [currentPrincipal], and the principal it
    leaves. *)
Fixpoint yearEntries (turns : nat) (year : Z)
    (annualRate currentPrincipal : num) : list (BreakdownEntry num) :=
  match turns with
  | O => []
  | S turns' =>
      let interest := yearlyInterest currentPrincipal annualRate in
      {| period := ("Year " ++ string_of_Z year)%string;
         startingPrincipal := currentPrincipal;
         interest := interest;
         endingAmount := currentPrincipal + interest |}
      :: yearEntries turns' (year + 1)%Z annualRate
           (currentPrincipal + interest)
  end.

Fixpoint amountAfter (turns : nat) (annualRate currentPrincipal : num) : num :=
  match turns with
  | O => currentPrincipal
  | S turns' =>
      amountAfter turns' annualRate
        (currentPrincipal + yearlyInterest currentPrincipal annualRate)
  end.

(** A ledger that opens at [opening]: every entry ends at its starting
    principal plus its interest, and starts where the one before it
    ended. *)
Fixpoint chained (opening : num) (entries : list (BreakdownEntry num))
  : Prop :=
  match entries with
  | [] => True
  | entry :: rest =>
      startingPrincipal entry = opening
      /\ endingAmount entry = startingPrincipal entry + interest entry
      /\ chained (endingAmount entry) rest
  end.

(** The ending amount of the last entry, or [opening] for an empty
    ledger. *)
Definition closingAmount (opening : num)
    (entries : list (BreakdownEntry num)) : num :=
  fold_left (fun _ entry => endingAmount entry) entries opening.

(** The trailing entries: none, or the single partial-period entry. *)
Definition trailingEntries (monthlyRate : num) (dateDiff : Duration)
    (currentPrincipal : num) : list (BreakdownEntry num) :=
  if hasPartialPeriod dateDiff then
    [ {| period := periodLabel dateDiff;
         startingPrincipal := currentPrincipal;
         interest := partialInterest currentPrincipal monthlyRate dateDiff;
         endingAmount :=
           currentPrincipal
           + partialInterest currentPrincipal monthlyRate dateDiff |} ]
  else [].

(** The interest of a year entry at annual rate [annualRate]. *)
Definition year_interest_at (annualRate : num)
    (entry : BreakdownEntry num) : Prop :=
  interest entry = (startingPrincipal entry * annualRate) / lit 100.

(** The interest of the trailing entry at monthly rate [monthlyRate]. *)
Definition partial_interest_at (monthlyRate : num) (dateDiff : Duration)
    (entry : BreakdownEntry num) : Prop :=
  interest entry
  = ((startingPrincipal entry * monthlyRate) / lit 100)
      * lit (months dateDiff)
    + (((startingPrincipal entry * monthlyRate) / lit 100) / lit 30)
        * lit (days dateDiff).

(** The first [years] entries are year entries at [annualRate] and the
    entries after them are partial-period entries at [monthlyRate]. *)
Definition rates_used (monthlyRate annualRate : num)
    (res : CalculationResult num) : Prop :=
  let turns := Z.to_nat (years (timeDuration res)) in
  Forall (year_interest_at annualRate) (firstn turns (breakdown res))
  /\ Forall (partial_interest_at monthlyRate (timeDuration res))
       (skipn turns (breakdown res)).

(** The shape and the bookkeeping of a result's ledger: [years] entries
    labelled "Year 1", "Year 2", ... in order, then one trailing entry
    exactly when months or days remain; the entries chain from the
    principal; the two top-level figures are the closing amount, and
    the closing amount less the principal, each rounded to two
    decimals. *)
Definition consistent_ledger (principal : num)
    (res : CalculationResult num) : Prop :=
  let dateDiff := timeDuration res in
  exists yearPart trailing,
    breakdown res = yearPart ++ trailing
    /\ (0 <= years dateDiff)%Z
    /\ Z.of_nat (length yearPart) = years dateDiff
    /\ map period yearPart
       = map (fun i => ("Year " ++ string_of_Z (Z.of_nat i))%string)
           (seq 1 (length yearPart))
    /\ (trailing = [] \/ exists entry, trailing = [entry])
    /\ (trailing <> [] <-> (months dateDiff > 0 \/ days dateDiff > 0)%Z)
    /\ chained principal (breakdown res)
    /\ finalAmount res = round2 (closingAmount principal (breakdown res))
    /\ totalInterest res
       = round2 (closingAmount principal (breakdown res) - principal).
End Ledger.

(** A principal the input contract admits: a positive finite number. *)
Definition positive_finite (p : float) : Prop :=
  (0 <? p)%float = true /\ (p <? infinity)%float = true.

(** The integers [lo, lo + 1, ...], [n] of them. *)
Fixpoint Zrange (lo : Z) (n : nat) : list Z :=
  match n with
  | O => []
  | S n' => lo :: Zrange (lo + 1) n'
  end.

(** A number that compares equal to 0: one of the two zeros. *)
Definition zero_valued (z : float) : Prop := (z =? 0)%float = true.

(** Either zero times an integer-valued number is a zero. *)
Definition zero_times_integer (n : Z) : bool :=
  ((0 * float_of_Z n =? 0) && (neg_zero * float_of_Z n =? 0))%float.

(** ** Failed attempts of [handleCalculate] *)

Definition invalid_principal (inp : CalculatorInputs) : Prop :=
  isNaN (parseFloat (principal inp)) = true
  \/ (parseFloat (principal inp) <=? 0)%float = true.

Definition invalid_rate (inp : CalculatorInputs) : Prop :=
  isNaN (parseFloat (interestRate inp)) = true
  \/ (parseFloat (interestRate inp) <? 0)%float = true.

Definition bad_date_format (inp : CalculatorInputs) : Prop :=
  datePattern_test (startDate inp) = false
  \/ datePattern_test (endDate inp) = false.

Definition ordering_violation (inp : CalculatorInputs) : Prop :=
  BSDate_lt (parseBSDate (endDate inp)) (parseBSDate (startDate inp)).

Definition fails_validation (inp : CalculatorInputs) : Prop :=
  invalid_principal inp \/ invalid_rate inp \/ bad_date_format inp
  \/ ordering_violation inp.

(** ** The inputs the component starts with, and their result *)

Definition initial_inputs : CalculatorInputs :=
  {| principal := "100000"; interestRate := "3";
     startDate := "2078-01-01"; endDate := "2080-04-04" |}.

Definition initial_result : CalculationResult float :=
  {| finalAmount := 202161.28%float;
     totalInterest := 102161.28%float;
     timeDuration := {| years := 2; months := 3; days := 3 |};
     breakdown :=
       [ {| period := "Year 1"; startingPrincipal := 100000%float;
            interest := 36000%float; endingAmount := 136000%float |};
         {| period := "Year 2"; startingPrincipal := 136000%float;
            interest := 48960%float; endingAmount := 184960%float |};
         {| period := "3 months 3 days"; startingPrincipal := 184960%float;
            interest := 17201.280000000002%float;
            endingAmount := 202161.28%float |} ]
  |}.

(** ** Two decimals, read off the exact value *)

(** The number of hundredths nearest to the exact value of a finite
    binary64 number, a half going up: for the value [n * 2 ^ e] it is
    the integer part of [100 * n * 2 ^ e + 1/2].  This is what rounding
    the held value to two decimal places gives, whatever the program
    computes. *)
Definition nearest_hundredths (x : float) : option Z :=
  match Prim2SF x with
  | S754_zero _ => Some 0
  | S754_finite s m e =>
      let n := if s then Z.neg m else Z.pos m in
      Some (if 0 <=? e then 100 * n * 2 ^ e
            else (200 * n + 2 ^ (- e)) / 2 ^ (1 - e))
  | _ => None
  end.
(* ================================================================== *)
(** * More specification-side vocabulary                               *)
(* ================================================================== *)

(** The day number of a date, and the length of a duration in days, in
    the fixed radix of 12 months of 30 days. *)
Definition dayNumber (d : BSDate) : Z := (year d * 12 + month d) * 30 + day d.

Definition durationDays (d : Duration) : Z :=
  (years d * 12 + months d) * 30 + days d.

(** The decimal digit [n] as a character, and zero-padded fields. *)
Definition digit_char (n : Z) : ascii := ascii_of_N (Z.to_N (48 + n)).

Definition pad2 (n : Z) : string :=
  String (digit_char (n / 10)) (String (digit_char (n mod 10)) EmptyString).

Definition pad4 (n : Z) : string :=
  String (digit_char (n / 1000))
    (String (digit_char (n / 100 mod 10)) (pad2 (n mod 100))).

(** The date string YYYY-MM-DD with the given fields. *)
Definition formatBSDate (d : BSDate) : string :=
  (pad4 (year d) ++ "-" ++ pad2 (month d) ++ "-" ++ pad2 (day d))%string.

(** The list last written to [localStorage] under the component's key,
    if any was. *)
Fixpoint lastStored (effects : list Effect)
  : option (list SavedCalculation.t) :=
  match effects with
  | [] => None
  | e :: rest =>
      match lastStored rest with
      | Some v => Some v
      | None =>
          match e with
          | setItem key v => if String.eqb key storage_key then Some v else None
          | alert _ => None
          end
      end
  end.

(** The state and the effect of a successful save. *)
Definition savedEntry (name : string) (now_id now_timestamp : Z)
    (st : PageState) (res : CalculationResult float) : SavedCalculation.t :=
  {| SavedCalculation.id := string_of_Z now_id;
     SavedCalculation.timestamp := now_timestamp;
     SavedCalculation.inputs := inputs (calculation st);
     SavedCalculation.result := res;
     SavedCalculation.name := name |}.

(** A result that [calculateNepaliInterest] returned to the handler for
    some inputs. *)
Definition computed (r : CalculationResult float) : Prop :=
  exists inp, tryCalculate inp = Return r.

(** The result on screen and every saved result were computed. *)
Definition results_computed (st : PageState) : Prop :=
  (forall r, result (calculation st) = Some r -> computed r)
  /\ Forall (fun c => computed (SavedCalculation.result c))
       (savedCalculations st).

(** Every [Load] of the sequence loads an entry that is in the list of
    saved calculations when it happens (the entries the page offers). *)
Fixpoint loads_listed (actions : list Action) (st : PageState) : Prop :=
  match actions with
  | [] => True
  | a :: rest =>
      match a with
      | Load calc => In calc (savedCalculations st)
      | _ => True
      end
      /\ loads_listed rest (fst (step a st))
  end.

(** [kept] is [all] with some elements left out, the others in their
    order. *)
Inductive subsequence {A : Type} : list A -> list A -> Prop :=
| subsequence_nil : subsequence [] []
| subsequence_keep (x : A) (kept all : list A) :
    subsequence kept all -> subsequence (x :: kept) (x :: all)
| subsequence_drop (x : A) (kept all : list A) :
    subsequence kept all -> subsequence kept (x :: all).


(* ================================================================== *)
(** * Binary64 rounding                                                *)
(* ================================================================== *)

(** The operations of [float] are specified by [SpecFloat]: each forms
    its exact result as an integer quotient at an exponent and hands it
    to [binary_round_aux], which shifts it to the exponent the format
    assigns to its size, rounds to nearest with ties to even, and
    renormalises.  The definitions of this section name the parts of
    that computation on non-negative numbers, so that the order of two
    results can be read off the order of the exact values. *)

Definition fexp64 (e : Z) : Z := SpecFloat.fexp prec emax e.

(** The quotient [A / B] as a shift record: integer part, the half bit
    and the sticky bit of the fraction. *)
Definition quotient_record (A B : Z) : shr_record :=
  {| shr_m := A / B;
     shr_r := B <=? 2 * (A mod B);
     shr_s := negb ((A mod B =? 0) || (2 * (A mod B) =? B)) |}.

(** The integer nearest to [A / B], ties to even. *)
Definition nearest_even (A B : Z) : Z :=
  let q := A / B in
  let r := A mod B in
  if 2 * r <? B then q
  else if 2 * r =? B then (if Z.even q then q else q + 1)
  else q + 1.

(** What [binary_round_aux] makes of a rounded significand [N] at
    exponent [E]: a significand of 54 bits is renormalised, an exponent
    beyond the format gives an infinity. *)
Definition finish (N E : Z) : spec_float :=
  if N =? 0 then S754_zero false
  else if N =? 2 ^ 53 then
    if E + 1 <=? 971 then S754_finite false (Z.to_pos (2 ^ 52)) (E + 1)
    else S754_infinity false
  else
    if E <=? 971 then S754_finite false (Z.to_pos N) E
    else S754_infinity false.

(** The rounding of [A / B * 2 ^ e], as [SFdiv] calls it. *)
Definition round_quotient (A B e : Z) : spec_float :=
  binary_round_aux prec emax false (A / B) e (new_location B (A mod B)).

(** The exponent the format assigns to [A / B * 2 ^ e]. *)
Definition target_exponent (A B e : Z) : Z := fexp64 (Zdigits2 (A / B) + e).

(** A quotient [A / B] at exponent [e] is scaled well when the exponent
    the format assigns to it is not below [e]: rounding then only shifts
    to the right. *)
Definition well_scaled (A B e : Z) : Prop :=
  e <= fexp64 (Zdigits2 (A / B) + e).

Definition rounded_significand (A B e : Z) : Z :=
  nearest_even A (B * 2 ^ (target_exponent A B e - e)).

(** [A / B * 2 ^ e <= A' / B' * 2 ^ e'], without fractions. *)
Definition value_le (A B e A' B' e' : Z) : Prop :=
  A * B' * 2 ^ (e - Z.min e e') <= A' * B * 2 ^ (e' - Z.min e e').

(** The binary64 number nearest to [M * 2 ^ K], as [SFadd] and
    [float_of_Z] call it. *)
Definition round_dyadic (M K : Z) : spec_float :=
  binary_normalize prec emax M K false.

(** [M * 2 ^ K] as [binary_round] aligns it before it rounds. *)
Definition aligned (M K : Z) : Z * Z :=
  let E := fexp64 (Zdigits2 M + K) in
  if E <? K then (M * 2 ^ (K - E), E) else (M, K).

(** The non-negative values: [+0], the positive finite numbers and
    [+Infinity]. *)
Definition nonneg (x : spec_float) : bool :=
  match x with
  | S754_zero false | S754_finite false _ _ | S754_infinity false => true
  | _ => false
  end.

(** [+0] and the positive finite numbers. *)
Definition finite_nonneg (x : spec_float) : bool :=
  match x with
  | S754_zero false | S754_finite false _ _ => true
  | _ => false
  end.

Definition significand (x : spec_float) : Z :=
  match x with S754_finite _ m _ => Z.pos m | _ => 0 end.

Definition exponent (x : spec_float) : Z :=
  match x with S754_finite _ _ e => e | _ => -1074 end.

(** The exponent and the numerator at which [SFdiv] forms the quotient
    of [m * 2 ^ e] by [m' * 2 ^ e']. *)
Definition quotient_exponent (m : positive) (e : Z) (m' : positive) (e' : Z)
  : Z :=
  Z.min (fexp64 (Zdigits2 (Z.pos m) + e - (Zdigits2 (Z.pos m') + e')))
        (e - e').

Definition quotient_numerator (m : positive) (e : Z) (m' : positive) (e' : Z)
  : Z :=
  Z.pos m * 2 ^ (e - e' - quotient_exponent m e m' e').

(** The integer nearest to [M * 2 ^ K], a half going up: the integer of
    [float_Math_round]. *)
Definition half_up (M K : Z) : Z :=
  if 0 <=? K then M * 2 ^ K else (2 * M + 2 ^ (- K)) / 2 ^ (- K + 1).

(** The order in which the amounts of the calculation grow: [y] is
    [NaN], or both are non-negative numbers and [x <= y]. *)
Definition SF_below (x y : spec_float) : Prop :=
  y = S754_nan
  \/ (nonneg x = true /\ nonneg y = true /\ SFleb x y = true).

Definition below (x y : float) : Prop := SF_below (Prim2SF x) (Prim2SF y).

(** A non-negative number or [NaN]. *)
Definition in_range (x : float) : Prop :=
  Prim2SF x = S754_nan \/ nonneg (Prim2SF x) = true.
(* ================================================================== *)
(** * Dates: parsing, ordering, duration                               *)
(* ================================================================== *)

Lemma isDigit_range c : isDigit c = true -> 48 <= code c <= 57.
Proof. unfold isDigit. rewrite andb_true_iff, !Z.leb_le. tauto. Qed.

Lemma isDigit_not_hyphen c : isDigit c = true -> isHyphen c = false.
Proof.
  intros H. apply isDigit_range in H. unfold isHyphen.
  apply Z.eqb_neq. lia.
Qed.

(** A string that passes the pattern test is parsed into its three
    fields, of four, two and two digits. *)
Lemma parseBSDate_pattern s :
  datePattern_test s = true -> four_two_two (parseBSDate s).
Proof.
  unfold datePattern_test.
  do 10 (destruct s as [|? s]; [discriminate|]).
  destruct s; [|discriminate]. cbn [list_ascii_of_string].
  rewrite !andb_true_iff.
  intros [[[[[[[[[Y1 Y2] Y3] Y4] H1] M1] M2] H2] D1] D2].
  unfold parseBSDate, four_two_two. cbn [split_hyphen].
  rewrite H1, H2.
  rewrite !isDigit_not_hyphen by assumption.
  cbn [split_hyphen map nth year month day Number digits_value].
  apply isDigit_range in Y1, Y2, Y3, Y4, M1, M2, D1, D2. lia.
Qed.

Lemma end_before_start_lt start end_ :
  end_before_start start end_ = true <-> BSDate_lt end_ start.
Proof.
  unfold end_before_start, BSDate_lt.
  rewrite !orb_true_iff, !andb_true_iff, !Z.ltb_lt, !Z.eqb_eq. tauto.
Qed.

Lemma end_before_start_refl d : end_before_start d d = false.
Proof.
  unfold end_before_start. rewrite !Z.ltb_irrefl, !andb_false_r. reflexivity.
Qed.

Lemma dateDifference_throws start end_ m :
  dateDifference start end_ = Throw m ->
  m = ordering_message /\ end_before_start start end_ = true.
Proof.
  unfold dateDifference.
  destruct (end_before_start start end_); [intros [= <-]; auto|].
  destruct (_ <? 0); cbn; destruct (_ <? 0); discriminate.
Qed.

(** The duration that is returned, by cases on the two borrows. *)
Lemma dateDifference_returns start end_ d :
  dateDifference start end_ = Return d ->
  end_before_start start end_ = false
  /\ 0 <= years d
  /\ (years d * 12 + months d) * 30 + days d
     = ((year end_ - year start) * 12 + (month end_ - month start)) * 30
       + (day end_ - day start).
Proof.
  unfold dateDifference.
  destruct (end_before_start start end_) eqn:E; [discriminate|].
  intros R. split; [reflexivity|]. revert R.
  assert (O : ~ BSDate_lt end_ start)
    by (rewrite <- end_before_start_lt; congruence).
  unfold BSDate_lt in O. unfold BS_DAYS_PER_MONTH, BS_MONTHS_PER_YEAR in *.
  destruct (day end_ - day start <? 0) eqn:Ed;
    [apply Z.ltb_lt in Ed | apply Z.ltb_ge in Ed]; cbn;
    (destruct (_ <? 0) eqn:Em;
     [apply Z.ltb_lt in Em | apply Z.ltb_ge in Em]);
    intros [= <-]; cbn; lia.
Qed.

Lemma dateDifference_same d :
  dateDifference d d = Return {| years := 0; months := 0; days := 0 |}.
Proof.
  unfold dateDifference. rewrite end_before_start_refl, !Z.sub_diag.
  reflexivity.
Qed.

(** C4.  For date strings that pass the pattern test,
    [calculateBSDateDifference] throws (its only error, 'End date must be
    after start date') exactly when the end date strictly precedes the
    start date in the lexicographic order on (year, month, day), and
    returns otherwise; so it throws for start 2080-01-01 and end
    2079-01-01, and returns when both strings are the same. *)
Theorem calculateBSDateDifference_ordering (startDateStr endDateStr : string) :
  datePattern_test startDateStr = true ->
  datePattern_test endDateStr = true ->
  (throws (calculateBSDateDifference startDateStr endDateStr) ordering_message
   <-> BSDate_lt (parseBSDate endDateStr) (parseBSDate startDateStr))
  /\ (~ BSDate_lt (parseBSDate endDateStr) (parseBSDate startDateStr)
      <-> returns (calculateBSDateDifference startDateStr endDateStr))
  /\ throws (calculateBSDateDifference "2080-01-01" "2079-01-01")
       ordering_message
  /\ returns (calculateBSDateDifference startDateStr startDateStr).
Proof.
  intros _ _. unfold calculateBSDateDifference, throws, returns. cbv zeta.
  rewrite <- end_before_start_lt.
  repeat split.
  - intros H. apply dateDifference_throws in H. tauto.
  - intros H. unfold dateDifference. rewrite H. reflexivity.
  - intros H.
    destruct (dateDifference _ _) as [d|m] eqn:E; [eauto|].
    apply dateDifference_throws in E. tauto.
  - intros [d H] E. apply dateDifference_returns in H.
    destruct H as [H _]. congruence.
  - rewrite dateDifference_same. eauto.
Qed.

Lemma calculateBSDateDifference_ordering_witness :
  throws (calculateBSDateDifference "2080-01-01" "2079-01-01") ordering_message
  <-> BSDate_lt (parseBSDate "2079-01-01") (parseBSDate "2080-01-01").
Proof.
  exact (proj1 (calculateBSDateDifference_ordering
                  "2080-01-01" "2079-01-01" eq_refl eq_refl)).
Defined.

(** C5.  For valid BS dates (any year, month 1-12, day 1-30) with the
    start not after the end, [calculateBSDateDifference] returns a
    duration with years >= 0, months in 0..11 and days in 0..29. *)
Theorem dateDifference_normalized (start end_ : BSDate) :
  valid_BSDate start -> valid_BSDate end_ -> ~ BSDate_lt end_ start ->
  exists d, dateDifference start end_ = Return d
            /\ 0 <= years d
            /\ 0 <= months d <= 11
            /\ 0 <= days d <= 29.
Proof.
  unfold valid_BSDate. intros Vs Ve O.
  destruct (dateDifference start end_) as [d|m] eqn:E.
  - exists d. split; [reflexivity|].
    pose proof (dateDifference_returns _ _ _ E) as (_ & Y & _).
    split; [exact Y|].
    revert E. unfold dateDifference.
    destruct (end_before_start start end_); [discriminate|].
    unfold BS_DAYS_PER_MONTH, BS_MONTHS_PER_YEAR.
    destruct (day end_ - day start <? 0) eqn:Ed;
      [apply Z.ltb_lt in Ed | apply Z.ltb_ge in Ed]; cbn;
      (destruct (_ <? 0) eqn:Em;
       [apply Z.ltb_lt in Em | apply Z.ltb_ge in Em]);
      intros [= <-]; cbn; lia.
  - apply dateDifference_throws in E. destruct E as [_ E].
    apply end_before_start_lt in E. contradiction.
Qed.

Lemma dateDifference_normalized_witness :
  exists d, dateDifference {| year := 2080; month := 12; day := 30 |}
                           {| year := 2081; month := 1; day := 1 |} = Return d
            /\ 0 <= years d
            /\ 0 <= months d <= 11
            /\ 0 <= days d <= 29.
Proof.
  apply dateDifference_normalized; unfold valid_BSDate, BSDate_lt; cbn; lia.
Defined.

(** Between two dates that pass the pattern test the months and days of
    the duration stay small, whatever the two-digit fields hold. *)
Lemma dateDifference_bounds start end_ d :
  four_two_two start -> four_two_two end_ ->
  dateDifference start end_ = Return d ->
  -128 <= months d <= 128 /\ -128 <= days d <= 128.
Proof.
  intros (_ & Ms & Ds) (_ & Me & De). unfold dateDifference.
  destruct (end_before_start _ _); [discriminate|].
  unfold BS_DAYS_PER_MONTH, BS_MONTHS_PER_YEAR.
  destruct (day end_ - day start <? 0) eqn:Ed;
    [apply Z.ltb_lt in Ed | apply Z.ltb_ge in Ed]; cbn;
    (destruct (_ <? 0) eqn:Em;
     [apply Z.ltb_lt in Em | apply Z.ltb_ge in Em]);
    intros [= <-]; cbn; lia.
Qed.

Lemma duration_bounds startDateStr endDateStr d :
  datePattern_test startDateStr = true ->
  datePattern_test endDateStr = true ->
  calculateBSDateDifference startDateStr endDateStr = Return d ->
  -128 <= months d <= 128 /\ -128 <= days d <= 128.
Proof.
  intros Ws We. apply dateDifference_bounds; now apply parseBSDate_pattern.
Qed.

(* ================================================================== *)
(** * The accrual loop, for any number type                            *)
(* ================================================================== *)

Section LedgerFacts.
Context {num : Type} {JSN : JSNumber num}.
#[local] Open Scope num_scope.
Implicit Types (entries : list (BreakdownEntry num)) (cp ar mr : num).

(** With the turns it can take, the loop never stops early: it runs
    while [year <= years] and appends one entry a turn. *)
Lemma yearLoop_spec years turns : forall year ar cp entries,
  Z.of_nat turns = Z.max 0 (years - year + 1) ->
  yearLoop turns year years ar (cp, entries)
  = (amountAfter turns ar cp, entries ++ yearEntries turns year ar cp).
Proof.
  induction turns as [|turns IH]; intros year ar cp entries T; cbn.
  - now rewrite app_nil_r.
  - replace (year <=? years)%Z with true by (symmetry; apply Z.leb_le; lia).
    rewrite IH, <- app_assoc by lia. reflexivity.
Qed.

Lemma length_yearEntries turns : forall year ar cp,
  length (yearEntries turns year ar cp) = turns.
Proof.
  induction turns as [|turns IH]; intros; cbn; [|rewrite IH]; reflexivity.
Qed.

Lemma period_yearEntries turns : forall (k : nat) ar cp,
  map period (yearEntries turns (Z.of_nat k) ar cp)
  = map (fun i => ("Year " ++ string_of_Z (Z.of_nat i))%string) (seq k turns).
Proof.
  induction turns as [|turns IH]; intros k ar cp; cbn; [reflexivity|].
  f_equal. replace (Z.of_nat k + 1)%Z with (Z.of_nat (S k)) by lia.
  apply IH.
Qed.

(** The last turn of the loop, taken apart. *)
Lemma amountAfter_succ turns : forall ar cp,
  amountAfter (S turns) ar cp
  = amountAfter turns ar cp + yearlyInterest (amountAfter turns ar cp) ar.
Proof.
  induction turns as [|turns IH]; intros ar cp; [reflexivity|].
  change (amountAfter (S (S turns)) ar cp)
    with (amountAfter (S turns) ar (cp + yearlyInterest cp ar)).
  rewrite IH. reflexivity.
Qed.

Lemma closingAmount_app opening entries entries' :
  closingAmount opening (entries ++ entries')
  = closingAmount (closingAmount opening entries) entries'.
Proof. apply fold_left_app. Qed.

Lemma chained_app entries : forall opening entries',
  chained opening (entries ++ entries')
  <-> chained opening entries
      /\ chained (closingAmount opening entries) entries'.
Proof.
  induction entries as [|entry entries IH]; intros opening entries'; cbn.
  - tauto.
  - rewrite IH. unfold closingAmount. cbn. tauto.
Qed.

Lemma chained_yearEntries turns : forall year ar cp,
  chained cp (yearEntries turns year ar cp)
  /\ closingAmount cp (yearEntries turns year ar cp)
     = amountAfter turns ar cp.
Proof.
  induction turns as [|turns IH]; intros year ar cp; cbn; [auto|].
  destruct (IH (year + 1)%Z ar (cp + yearlyInterest cp ar)) as [C A].
  auto.
Qed.

Lemma year_interest_yearEntries turns : forall year ar cp,
  Forall (year_interest_at ar) (yearEntries turns year ar cp).
Proof.
  induction turns as [|turns IH]; intros; cbn; constructor; auto.
  reflexivity.
Qed.

Lemma partialStep_spec mr dateDiff cp entries :
  partialStep mr dateDiff (cp, entries)
  = (closingAmount cp (trailingEntries mr dateDiff cp),
     entries ++ trailingEntries mr dateDiff cp).
Proof.
  unfold partialStep, trailingEntries.
  destruct (hasPartialPeriod dateDiff); cbn; [reflexivity|].
  now rewrite app_nil_r.
Qed.

Lemma accrue_spec p r dateDiff :
  let turns := Z.to_nat (years dateDiff) in
  let cp := amountAfter turns (annualRate r) p in
  accrue p r dateDiff
  = (closingAmount cp (trailingEntries (monthlyRate r) dateDiff cp),
     yearEntries turns 1 (annualRate r) p
     ++ trailingEntries (monthlyRate r) dateDiff cp).
Proof.
  cbv zeta. unfold accrue. rewrite yearLoop_spec, partialStep_spec by lia.
  reflexivity.
Qed.

(** What a call that returns has computed. *)
Lemma calculateNepaliInterest_returns p r startDate endDate res :
  calculateNepaliInterest p r startDate endDate = Return res ->
  (p <=? lit 0) = false /\ (r <? lit 0) = false
  /\ exists dateDiff,
       calculateBSDateDifference startDate endDate = Return dateDiff
       /\ res = {| finalAmount := round2 (fst (accrue p r dateDiff));
                   totalInterest := round2 (fst (accrue p r dateDiff) - p);
                   timeDuration := dateDiff;
                   breakdown := snd (accrue p r dateDiff) |}.
Proof.
  unfold calculateNepaliInterest.
  destruct (p <=? lit 0); [discriminate|].
  destruct (r <? lit 0); [discriminate|].
  destruct (calculateBSDateDifference startDate endDate) as [d|m];
    [|discriminate].
  cbn. destruct (accrue p r d) as [fa bd] eqn:A.
  intros [= <-]. repeat split. exists d. rewrite A. split; reflexivity.
Qed.

Lemma calculateNepaliInterest_value p r startDate endDate dateDiff :
  (p <=? lit 0) = false -> (r <? lit 0) = false ->
  calculateBSDateDifference startDate endDate = Return dateDiff ->
  calculateNepaliInterest p r startDate endDate
  = Return {| finalAmount := round2 (fst (accrue p r dateDiff));
              totalInterest := round2 (fst (accrue p r dateDiff) - p);
              timeDuration := dateDiff;
              breakdown := snd (accrue p r dateDiff) |}.
Proof.
  intros P R D. unfold calculateNepaliInterest. rewrite P, R, D. cbn.
  destruct (accrue p r dateDiff). reflexivity.
Qed.

Lemma ledger_consistent p r startDate endDate res :
  calculateNepaliInterest p r startDate endDate = Return res ->
  consistent_ledger p res.
Proof.
  intros H. apply calculateNepaliInterest_returns in H.
  destruct H as (_ & _ & d & D & ->). unfold consistent_ledger.
  cbn [timeDuration breakdown finalAmount totalInterest].
  apply dateDifference_returns in D. destruct D as (_ & Y & _).
  rewrite accrue_spec. cbn [fst snd].
  set (turns := Z.to_nat (years d)).
  set (cp := amountAfter turns (annualRate r) p).
  destruct (chained_yearEntries turns 1 (annualRate r) p) as [C A].
  fold cp in A.
  exists (yearEntries turns 1 (annualRate r) p),
         (trailingEntries (monthlyRate r) d cp).
  rewrite length_yearEntries, closingAmount_app, A.
  repeat split.
  - exact Y.
  - subst turns. lia.
  - apply (period_yearEntries turns 1).
  - unfold trailingEntries. destruct (hasPartialPeriod d); eauto.
  - unfold trailingEntries, hasPartialPeriod.
    destruct (months d >? 0)%Z eqn:M; [apply Z.gtb_lt in M; lia|].
    destruct (days d >? 0)%Z eqn:N; [apply Z.gtb_lt in N; lia|].
    cbn. congruence.
  - unfold trailingEntries, hasPartialPeriod. intros [M|N].
    + apply Z.gt_lt, Z.gtb_lt in M. rewrite M. discriminate.
    + apply Z.gt_lt, Z.gtb_lt in N. rewrite N, orb_true_r. discriminate.
  - apply chained_app. split; [exact C|]. rewrite A.
    unfold trailingEntries. destruct (hasPartialPeriod d); cbn; auto.
Qed.

Lemma rates_used_returns p r startDate endDate res :
  calculateNepaliInterest p r startDate endDate = Return res ->
  rates_used (monthlyRate r) (annualRate r) res.
Proof.
  intros H. apply calculateNepaliInterest_returns in H.
  destruct H as (_ & _ & d & _ & ->). unfold rates_used.
  cbn [timeDuration breakdown]. rewrite accrue_spec. cbn [snd].
  set (turns := Z.to_nat (years d)).
  pose proof (length_yearEntries turns 1 (annualRate r) p) as L.
  rewrite firstn_app, skipn_app, L, Nat.sub_diag.
  rewrite firstn_all2, skipn_all2 by lia. cbn [firstn skipn app].
  rewrite app_nil_r. split.
  - apply year_interest_yearEntries.
  - unfold trailingEntries. destruct (hasPartialPeriod d); repeat constructor.
Qed.
End LedgerFacts.

(* ================================================================== *)
(** * Facts of binary64 arithmetic                                     *)
(* ================================================================== *)

Lemma SFcompare_antisym (x y : spec_float) :
  SFcompare y x = option_map CompOpp (SFcompare x y).
Proof.
  destruct x as [sx|sx| |sx mx ex], y as [sy|sy| |sy my ey]; cbn;
    try reflexivity;
    try (destruct sx; reflexivity); try (destruct sy; reflexivity);
    try (destruct sx, sy; reflexivity).
  destruct sx, sy; cbn; try reflexivity;
    rewrite (Z.compare_antisym ex ey); destruct (ex ?= ey); cbn;
    try reflexivity;
    rewrite (Pos.compare_cont_antisym mx my Eq); reflexivity.
Qed.

Lemma ltb_leb_false (x y : float) :
  (x <? y)%float = true -> (y <=? x)%float = false.
Proof.
  rewrite ltb_spec, leb_spec. unfold SFltb, SFleb.
  rewrite (SFcompare_antisym (Prim2SF x) (Prim2SF y)).
  destruct (SFcompare (Prim2SF x) (Prim2SF y)) as [[ | | ]|]; cbn; congruence.
Qed.

Lemma leb_ltb_false (x y : float) :
  (x <=? y)%float = true -> (y <? x)%float = false.
Proof.
  rewrite ltb_spec, leb_spec. unfold SFltb, SFleb.
  rewrite (SFcompare_antisym (Prim2SF x) (Prim2SF y)).
  destruct (SFcompare (Prim2SF x) (Prim2SF y)) as [[ | | ]|]; cbn; congruence.
Qed.

Lemma float_neq (x y : float) : Prim2SF x <> Prim2SF y -> x <> y.
Proof. intros H E. apply H. now rewrite E. Qed.

Lemma positive_finite_SF (p : float) :
  positive_finite p -> exists m e, Prim2SF p = S754_finite false m e.
Proof.
  unfold positive_finite. rewrite !ltb_spec. unfold SFltb.
  change (Prim2SF 0) with (S754_zero false).
  change (Prim2SF infinity) with (S754_infinity false).
  destruct (Prim2SF p) as [s|s| |s m e]; cbn; intros [H1 H2];
    try discriminate; destruct s; try discriminate; eauto.
Qed.

Lemma positive_not_le_0 (p : float) :
  (0 <? p)%float = true -> (p <=? 0)%float = false.
Proof. apply ltb_leb_false. Qed.

Lemma zero_valued_cases (z : float) :
  zero_valued z -> z = 0%float \/ z = neg_zero.
Proof.
  unfold zero_valued. rewrite FloatAxioms.eqb_spec. unfold SFeqb.
  change (Prim2SF 0) with (S754_zero false).
  intros H. rewrite <- (SF2Prim_Prim2SF z). revert H.
  destruct (Prim2SF z) as [s|s| |s m e]; cbn; try discriminate;
    destruct s; try discriminate; auto.
Qed.

Lemma mul_zero (p z : float) :
  positive_finite p -> zero_valued z -> zero_valued (p * z)%float.
Proof.
  intros H Z. destruct (positive_finite_SF p H) as (m & e & Hp).
  unfold zero_valued. rewrite FloatAxioms.eqb_spec, mul_spec, Hp.
  destruct (zero_valued_cases z Z) as [-> | ->]; reflexivity.
Qed.

Lemma add_zero (p z : float) :
  positive_finite p -> zero_valued z -> (p + z)%float = p.
Proof.
  intros H Z. destruct (positive_finite_SF p H) as (m & e & Hp).
  apply Prim2SF_inj. rewrite add_spec, Hp.
  destruct (zero_valued_cases z Z) as [-> | ->]; reflexivity.
Qed.

Lemma zero_div_constant (z : float) :
  zero_valued z ->
  zero_valued (z / 100)%float /\ zero_valued (z / 30)%float.
Proof.
  intros Z. destruct (zero_valued_cases z Z) as [-> | ->];
    split; reflexivity.
Qed.

Lemma zero_add_zero (a b : float) :
  zero_valued a -> zero_valued b -> zero_valued (a + b)%float.
Proof.
  intros A B.
  destruct (zero_valued_cases a A) as [-> | ->];
    destruct (zero_valued_cases b B) as [-> | ->]; reflexivity.
Qed.

Lemma zero_not_negative (z : float) :
  zero_valued z -> (z <? 0)%float = false.
Proof.
  intros Z. destruct (zero_valued_cases z Z) as [-> | ->]; reflexivity.
Qed.

Lemma sub_diag (p : float) : positive_finite p -> (p - p)%float = 0%float.
Proof.
  intros H. destruct (positive_finite_SF p H) as (m & e & Hp).
  apply Prim2SF_inj. rewrite sub_spec, Hp.
  change (Prim2SF 0) with (S754_zero false).
  unfold SF64sub, SFsub. cbv zeta. cbn [cond_Zopp].
  rewrite Z.sub_diag. reflexivity.
Qed.

Lemma In_Zrange n : forall lo k,
  lo <= k < lo + Z.of_nat n -> In k (Zrange lo n).
Proof.
  induction n as [|n IH]; intros lo k H; cbn; [lia|].
  destruct (Z.eq_dec lo k); [auto|]. right. apply IH. lia.
Qed.

Lemma zero_times_small_integers :
  forallb zero_times_integer (Zrange (-128) 257) = true.
Proof. vm_compute. reflexivity. Qed.

Lemma zero_mul_integer (z : float) (n : Z) :
  zero_valued z -> -128 <= n <= 128 -> zero_valued (z * float_of_Z n)%float.
Proof.
  intros Z H. pose proof zero_times_small_integers as A.
  rewrite forallb_forall in A.
  assert (I : In n (Zrange (-128) 257)) by (apply In_Zrange; lia).
  apply A in I. unfold zero_times_integer in I.
  apply andb_true_iff in I.
  destruct (zero_valued_cases z Z) as [-> | ->]; tauto.
Qed.


(* ================================================================== *)
(** * Binary64 rounding is monotone                                    *)
(* ================================================================== *)

(** On non-negative numbers the results of [SFmul], [SFadd] and [SFdiv]
    are roundings of their exact values.  [round_quotient A B e], the
    rounding of [A / B * 2 ^ e], is [finish N E], where [E] is the
    exponent the format assigns to the size of the value and [N] is the
    integer nearest to the value in units of [2 ^ E], ties to even
    (theorem [round_quotient_finish]).  Both grow with the value, hence
    so does the result (theorems [round_quotient_mono] and
    [round_dyadic_mono]), and with it every operation the calculation
    applies to an amount: [SFmul_below], [SFdiv_below], [SFadd_below]
    and [below_Math_round]. *)

Lemma fexp64_eq e : fexp64 e = Z.max (e - 53) (-1074).
Proof. reflexivity. Qed.

Lemma fexp64_mono e e' : e <= e' -> fexp64 e <= fexp64 e'.
Proof. rewrite !fexp64_eq. lia. Qed.

(** ** Number of binary digits *)

Lemma digits2_pos_size (p : positive) : digits2_pos p = Pos.size p.
Proof. induction p; cbn; congruence. Qed.

Lemma Zdigits2_log2 (m : Z) : 0 < m -> Zdigits2 m = Z.log2 m + 1.
Proof.
  destruct m as [|p|p]; try lia. intros _. cbn [Zdigits2].
  rewrite digits2_pos_size. destruct p; cbn; lia.
Qed.

Lemma Zdigits2_bounds (m : Z) :
  0 < m -> 2 ^ (Zdigits2 m - 1) <= m < 2 ^ Zdigits2 m.
Proof.
  intros H. rewrite Zdigits2_log2 by assumption.
  replace (Z.log2 m + 1 - 1) with (Z.log2 m) by lia.
  pose proof (Z.log2_spec m H). rewrite <- Z.add_1_r in *. lia.
Qed.

Lemma Zdigits2_pos (m : Z) : 0 < m -> 0 < Zdigits2 m.
Proof.
  intros H. rewrite Zdigits2_log2 by assumption.
  pose proof (Z.log2_nonneg m). lia.
Qed.

Lemma Zdigits2_nonneg (m : Z) : 0 <= m -> 0 <= Zdigits2 m.
Proof.
  intros H. destruct (Z.eq_dec m 0) as [->|]; [cbn; lia|].
  pose proof (Zdigits2_pos m). lia.
Qed.

Lemma Zdigits2_upper (m : Z) : 0 <= m -> m < 2 ^ Zdigits2 m.
Proof.
  intros H. destruct (Z.eq_dec m 0) as [->|]; [cbn; lia|].
  apply Zdigits2_bounds. lia.
Qed.

(** ** One shift to the right *)

Lemma shr_1_spec (m : Z) (r s : bool) :
  0 <= m ->
  shr_1 {| shr_m := m; shr_r := r; shr_s := s |}
  = {| shr_m := m / 2; shr_r := Z.odd m; shr_s := r || s |}.
Proof.
  intros H. destruct m as [|p|p]; [reflexivity| |lia].
  destruct p as [p|p|]; cbn [shr_1 Z.odd].
  - f_equal. apply (Z.div_unique _ _ _ 1); lia.
  - f_equal. apply (Z.div_unique _ _ _ 0); lia.
  - reflexivity.
Qed.

Lemma quotient_record_shift (A B : Z) :
  0 <= A -> 0 < B ->
  shr_1 (quotient_record A B) = quotient_record A (2 * B).
Proof.
  intros HA HB. unfold quotient_record.
  rewrite shr_1_spec by (apply Z.div_pos; lia).
  pose proof (Z.div_mod A B ltac:(lia)) as E.
  pose proof (Z.mod_pos_bound A B HB) as R.
  set (q := A / B) in *. set (r := A mod B) in *.
  pose proof (Z.div_mod q 2 ltac:(lia)) as E2.
  pose proof (Z.mod_pos_bound q 2 ltac:(lia)) as R2.
  set (q2 := q / 2) in *. set (b := q mod 2) in *.
  assert (D : A / (2 * B) = q2).
  { symmetry. apply (Z.div_unique _ _ _ (b * B + r)); nia. }
  assert (M : A mod (2 * B) = b * B + r).
  { symmetry. apply (Z.mod_unique _ _ q2); nia. }
  rewrite D, M.
  assert (O : Z.odd q = (b =? 1)).
  { rewrite E2, Z.add_comm, Z.odd_add_mul_2.
    destruct (Z.eq_dec b 0) as [->|]; [reflexivity|].
    replace b with 1 by lia. reflexivity. }
  rewrite O. clearbody q r q2 b. clear D M O.
  assert (Hb : b = 0 \/ b = 1) by lia.
  destruct Hb as [-> | ->]; rewrite ?Z.mul_0_l, ?Z.mul_1_l, ?Z.add_0_l;
    f_equal.
  - destruct (Z.leb_spec (2 * B) (2 * r)); [lia|reflexivity].
  - destruct (Z.eqb_spec r 0), (Z.eqb_spec (2 * r) B), (Z.leb_spec B (2 * r)),
      (Z.eqb_spec (2 * r) (2 * B)); cbn; try reflexivity; lia.
  - destruct (Z.leb_spec (2 * B) (2 * (B + r))); [reflexivity|lia].
  - destruct (Z.eqb_spec r 0), (Z.eqb_spec (2 * r) B), (Z.leb_spec B (2 * r)),
      (Z.eqb_spec (B + r) 0), (Z.eqb_spec (2 * (B + r)) (2 * B));
      cbn; try reflexivity; lia.
Qed.

Lemma pow2_xO (p : positive) : 2 ^ Z.pos p~0 = 2 ^ Z.pos p * 2 ^ Z.pos p.
Proof. rewrite <- Z.pow_add_r by lia. f_equal; lia. Qed.

Lemma pow2_xI (p : positive) : 2 ^ Z.pos p~1 = 2 * (2 ^ Z.pos p * 2 ^ Z.pos p).
Proof.
  rewrite <- pow2_xO. change 2 with (2 ^ 1) at 2.
  rewrite <- Z.pow_add_r by lia. f_equal; lia.
Qed.

Lemma quotient_record_iter (p : positive) :
  forall A B, 0 <= A -> 0 < B ->
  iter_pos shr_1 p (quotient_record A B)
  = quotient_record A (B * 2 ^ Z.pos p).
Proof.
  induction p as [p IH|p IH|]; intros A B HA HB; cbn [iter_pos].
  - rewrite quotient_record_shift, !IH by (try apply Z.mul_pos_pos; lia).
    f_equal. rewrite pow2_xI. ring.
  - rewrite !IH by (try apply Z.mul_pos_pos; lia).
    f_equal. rewrite pow2_xO. ring.
  - rewrite quotient_record_shift by assumption. f_equal.
    change (2 ^ 1) with 2. ring.
Qed.

Lemma quotient_record_shr (A B e n : Z) :
  0 <= A -> 0 < B -> 0 <= n ->
  shr (quotient_record A B) e n = (quotient_record A (B * 2 ^ n), e + n).
Proof.
  intros HA HB Hn. destruct n as [|p|p]; [| |lia]; cbn [shr].
  - rewrite Z.pow_0_r, Z.mul_1_r, Z.add_0_r. reflexivity.
  - rewrite quotient_record_iter by assumption. reflexivity.
Qed.

(** The location of the fraction of [A / B], as the division computes
    it from the remainder. *)
Lemma quotient_record_location (A B : Z) :
  0 <= A -> 0 < B ->
  shr_record_of_loc (A / B) (new_location B (A mod B)) = quotient_record A B.
Proof.
  intros HA HB. pose proof (Z.mod_pos_bound A B HB) as R.
  unfold quotient_record, new_location, new_location_even, new_location_odd.
  set (r := A mod B) in *. clearbody r.
  destruct (Z.even B) eqn:Ev.
  - destruct (Z.eqb_spec r 0) as [->|N].
    + cbn. destruct (Z.leb_spec B 0); [lia|reflexivity].
    + destruct (Z.compare_spec (2 * r) B), (Z.leb_spec B (2 * r)),
        (Z.eqb_spec (2 * r) B); cbn; try reflexivity; lia.
  - assert (O : 2 * r <> B).
    { intros <-. rewrite Z.even_mul in Ev. discriminate. }
    destruct (Z.eqb_spec r 0) as [->|N].
    + cbn. destruct (Z.leb_spec B 0); [lia|reflexivity].
    + destruct (Z.compare_spec (2 * r + 1) B), (Z.leb_spec B (2 * r)),
        (Z.eqb_spec (2 * r) B); cbn; try reflexivity; lia.
Qed.

(** ** The nearest integer, ties to even *)

Lemma round_quotient_record (A B : Z) :
  0 < B ->
  round_nearest_even (shr_m (quotient_record A B))
    (loc_of_shr_record (quotient_record A B))
  = nearest_even A B.
Proof.
  intros HB. pose proof (Z.mod_pos_bound A B HB) as R.
  unfold quotient_record, nearest_even. cbn [shr_m loc_of_shr_record].
  set (r := A mod B) in *. clearbody r.
  destruct (Z.leb_spec B (2 * r)), (Z.eqb_spec r 0), (Z.eqb_spec (2 * r) B),
    (Z.ltb_spec (2 * r) B); cbn; try reflexivity; lia.
Qed.

(** [nearest_even A B] is within one half of [A / B], and is even when
    [A / B] is half way between two integers. *)
Lemma nearest_even_spec (A B : Z) :
  0 < B ->
  let N := nearest_even A B in
  (2 * N - 1) * B <= 2 * A <= (2 * N + 1) * B
  /\ (2 * A = (2 * N - 1) * B -> Z.even N = true)
  /\ (2 * A = (2 * N + 1) * B -> Z.even N = true).
Proof.
  intros HB. pose proof (Z.mod_pos_bound A B HB) as R.
  pose proof (Z.div_mod A B ltac:(lia)) as E.
  unfold nearest_even. cbv zeta.
  set (q := A / B) in *. set (r := A mod B) in *. clearbody q r.
  destruct (Z.ltb_spec (2 * r) B) as [L|L].
  - repeat split; try nia.
  - destruct (Z.eqb_spec (2 * r) B) as [T|T].
    + destruct (Z.even q) eqn:Ev.
      * repeat split; try nia; auto.
      * assert (Z.even (q + 1) = true).
        { rewrite Z.even_add, Ev. reflexivity. }
        repeat split; try nia; auto.
    + repeat split; try nia.
Qed.

Lemma nearest_even_mono (A B A' B' : Z) :
  0 < B -> 0 < B' -> A * B' <= A' * B ->
  nearest_even A B <= nearest_even A' B'.
Proof.
  intros HB HB' H.
  destruct (nearest_even_spec A B HB) as ([L U] & T1 & T2).
  destruct (nearest_even_spec A' B' HB') as ([L' U'] & T1' & T2').
  set (N := nearest_even A B) in *. set (N' := nearest_even A' B') in *.
  clearbody N N'.
  destruct (Z_le_gt_dec N N') as [|G]; [assumption|exfalso].
  assert (C1 : (2 * N - 1) * (B * B') <= 2 * (A * B')) by nia.
  assert (C2 : 2 * (A' * B) <= (2 * N' + 1) * (B * B')) by nia.
  assert (P : 0 < B * B') by nia.
  assert (K : (2 * N - 1) * (B * B') <= (2 * N' + 1) * (B * B')) by lia.
  assert (N = N' + 1) by nia. subst N.
  assert (E1 : 2 * A = (2 * (N' + 1) - 1) * B) by nia.
  assert (E2 : 2 * A' = (2 * N' + 1) * B') by nia.
  specialize (T1 E1). specialize (T2' E2).
  rewrite Z.even_add, T2' in T1. discriminate.
Qed.

Lemma nearest_even_bounds (A B : Z) :
  0 < B -> A / B <= nearest_even A B <= A / B + 1.
Proof.
  intros HB. unfold nearest_even. cbv zeta.
  destruct (_ <? _); [lia|]. destruct (_ =? _); [|lia].
  destruct (Z.even _); lia.
Qed.

Lemma nearest_even_integer (m : Z) : nearest_even m 1 = m.
Proof.
  unfold nearest_even. rewrite Z.div_1_r, Z.mod_1_r. reflexivity.
Qed.

(** ** The two steps of [binary_round_aux] *)

Lemma Zdigits2_le (m k : Z) : 0 <= k -> 0 <= m < 2 ^ k -> Zdigits2 m <= k.
Proof.
  intros Hk [H0 H]. destruct (Z.eq_dec m 0) as [->|]; [cbn; lia|].
  rewrite Zdigits2_log2 by lia.
  assert (Z.log2 m < k) by (apply Z.log2_lt_pow2; lia). lia.
Qed.

Lemma Zdigits2_ge (m k : Z) : 0 <= k -> 2 ^ k <= m -> k + 1 <= Zdigits2 m.
Proof.
  intros Hk H. assert (0 < m) by (pose proof (Z.pow_pos_nonneg 2 k); lia).
  rewrite Zdigits2_log2 by lia.
  assert (k <= Z.log2 m) by (apply Z.log2_le_pow2; lia). lia.
Qed.

Lemma second_shift (N E : Z) :
  0 <= N <= 2 ^ 53 -> -1074 <= E ->
  (let '(mrs, e) := shr_fexp prec emax N E loc_Exact in
   match shr_m mrs with
   | Z0 => S754_zero false
   | Z.pos m =>
       if e <=? emax - prec then S754_finite false m e
       else S754_infinity false
   | Z.neg _ => S754_nan
   end) = finish N E.
Proof.
  intros [H0 H1] HE. unfold shr_fexp, finish.
  change (SpecFloat.fexp prec emax) with fexp64. rewrite fexp64_eq.
  change (emax - prec) with 971.
  destruct (Z.eqb_spec N 0) as [->|N0].
  - cbn [Zdigits2]. 
    destruct (Z.max (0 + E - 53) (-1074) - E) eqn:S; try lia; reflexivity.
  - destruct (Z.eqb_spec N (2 ^ 53)) as [->|N1].
    + change (Zdigits2 (2 ^ 53)) with 54.
      replace (Z.max (54 + E - 53) (-1074) - E) with 1 by lia.
      reflexivity.
    + assert (D : Zdigits2 N <= 53) by (apply Zdigits2_le; lia).
      destruct (Z.max (Zdigits2 N + E - 53) (-1074) - E) eqn:S; try lia;
        cbn [shr shr_record_of_loc shr_m];
        (destruct N; [lia| |lia]); reflexivity.
Qed.

Lemma rounded_significand_bounds (A B e : Z) :
  0 <= A -> 0 < B -> well_scaled A B e ->
  0 <= rounded_significand A B e <= 2 ^ 53.
Proof.
  intros HA HB W. unfold rounded_significand, well_scaled, target_exponent in *.
  set (q := A / B) in *. set (E := fexp64 (Zdigits2 q + e)) in *.
  assert (Hq : 0 <= q) by (apply Z.div_pos; lia).
  assert (P : 0 < 2 ^ (E - e)) by (apply Z.pow_pos_nonneg; lia).
  assert (PB : 0 < B * 2 ^ (E - e)) by (apply Z.mul_pos_pos; lia).
  pose proof (nearest_even_bounds A _ PB) as [L U].
  assert (0 <= A / (B * 2 ^ (E - e))) by (apply Z.div_pos; lia).
  split; [lia|].
  assert (A / (B * 2 ^ (E - e)) < 2 ^ 53); [|lia].
  apply Z.div_lt_upper_bound; [lia|].
  pose proof (Zdigits2_upper q Hq) as Q.
  pose proof (Zdigits2_nonneg q Hq) as Dq.
  assert (A < B * 2 ^ Zdigits2 q).
  { pose proof (Z.div_mod A B ltac:(lia)). pose proof (Z.mod_pos_bound A B HB).
    fold q in H0. nia. }
  assert (2 ^ Zdigits2 q <= 2 ^ (E - e) * 2 ^ 53).
  { rewrite <- Z.pow_add_r by lia. apply Z.pow_le_mono_r; [lia|].
    unfold E. rewrite fexp64_eq. lia. }
  nia.
Qed.

Theorem round_quotient_finish (A B e : Z) :
  0 <= A -> 0 < B -> well_scaled A B e ->
  round_quotient A B e
  = finish (rounded_significand A B e) (target_exponent A B e).
Proof.
  intros HA HB W.
  pose proof (rounded_significand_bounds A B e HA HB W) as Bd.
  unfold round_quotient, binary_round_aux.
  unfold shr_fexp at 1. change (SpecFloat.fexp prec emax) with fexp64.
  rewrite quotient_record_location by assumption.
  fold (target_exponent A B e). unfold well_scaled in W.
  fold (target_exponent A B e) in W.
  rewrite quotient_record_shr by lia.
  replace (e + (target_exponent A B e - e)) with (target_exponent A B e) by lia.
  rewrite round_quotient_record
    by (apply Z.mul_pos_pos; [lia|apply Z.pow_pos_nonneg; lia]).
  fold (rounded_significand A B e).
  apply second_shift; [assumption|].
  unfold target_exponent. rewrite fexp64_eq. lia.
Qed.

(** ** Order of the results *)

Lemma SFleb_finite (m m' : positive) (e e' : Z) :
  SFleb (S754_finite false m e) (S754_finite false m' e') = true
  <-> e < e' \/ (e = e' /\ Z.pos m <= Z.pos m').
Proof.
  unfold SFleb, SFcompare.
  destruct (Z.compare_spec e e') as [->|L|G].
  - change (Pos.compare_cont Eq m m') with (Pos.compare m m').
    destruct (Pos.compare_spec m m') as [->|L|G];
      split; intros H; try reflexivity; try discriminate; lia.
  - split; intros; [lia|reflexivity].
  - split; intros H; [discriminate|lia].
Qed.

Lemma SFleb_zero_l (x : spec_float) :
  nonneg x = true -> SFleb (S754_zero false) x = true.
Proof. destruct x as [[|]|[|]| |[|] m e]; try discriminate; reflexivity. Qed.

Lemma SFleb_infinity_r (x : spec_float) :
  nonneg x = true -> SFleb x (S754_infinity false) = true.
Proof. destruct x as [[|]|[|]| |[|] m e]; try discriminate; reflexivity. Qed.

Lemma nonneg_finish (N E : Z) : nonneg (finish N E) = true.
Proof.
  unfold finish. repeat (destruct (_ =? _) || destruct (_ <=? _));
    reflexivity.
Qed.

Lemma finish_le (N E N' E' : Z) :
  E <= E' -> 0 <= N <= 2 ^ 53 -> 0 <= N' <= 2 ^ 53 ->
  (E = E' -> N <= N') -> (E < E' -> 2 ^ 52 <= N') ->
  SFleb (finish N E) (finish N' E') = true.
Proof.
  intros HE HN HN' Same Above.
  destruct (Z.eq_dec N 0) as [->|N0].
  { apply SFleb_zero_l, nonneg_finish. }
  assert (N'0 : 0 < N').
  { destruct (Z.eq_dec E E'); [specialize (Same ltac:(assumption))|
                               specialize (Above ltac:(lia))]; lia. }
  unfold finish.
  destruct (Z.eqb_spec N 0); [lia|].
  destruct (Z.eqb_spec N' 0); [lia|].
  destruct (Z.eqb_spec N (2 ^ 53)) as [->|N1],
           (Z.eqb_spec N' (2 ^ 53)) as [->|N'1].
  - destruct (Z.leb_spec (E + 1) 971), (Z.leb_spec (E' + 1) 971);
      try reflexivity; [apply SFleb_finite|]; lia.
  - destruct (Z.leb_spec (E + 1) 971), (Z.leb_spec E' 971);
      try reflexivity.
    + apply SFleb_finite. rewrite !Z2Pos.id by lia.
      destruct (Z.eq_dec E E'); [specialize (Same ltac:(assumption))|
                                 specialize (Above ltac:(lia))]; lia.
    + destruct (Z.eq_dec E E'); [specialize (Same ltac:(assumption))|
                                 specialize (Above ltac:(lia))]; lia.
  - destruct (Z.leb_spec E 971), (Z.leb_spec (E' + 1) 971);
      try reflexivity; [apply SFleb_finite|]; lia.
  - destruct (Z.leb_spec E 971), (Z.leb_spec E' 971);
      try reflexivity; [apply SFleb_finite; rewrite !Z2Pos.id by lia|].
    + destruct (Z.eq_dec E E'); [specialize (Same ltac:(assumption))|]; lia.
    + lia.
Qed.

(** ** Rounding a quotient is monotone *)

Lemma value_le_scaled (A B e A' B' e' k : Z) :
  k <= e -> k <= e' ->
  (value_le A B e A' B' e'
   <-> A * B' * 2 ^ (e - k) <= A' * B * 2 ^ (e' - k)).
Proof.
  intros He He'. unfold value_le. set (j := Z.min e e').
  assert (Hj : k <= j) by lia.
  replace (e - k) with ((e - j) + (j - k)) by lia.
  replace (e' - k) with ((e' - j) + (j - k)) by lia.
  rewrite !Z.pow_add_r by lia.
  assert (P : 0 < 2 ^ (j - k)) by (apply Z.pow_pos_nonneg; lia).
  split; intros H.
  - rewrite !Z.mul_assoc. apply Z.mul_le_mono_nonneg_r; [lia|exact H].
  - rewrite !Z.mul_assoc in H.
    apply Z.mul_le_mono_pos_r in H; assumption.
Qed.

Lemma product_chain (a u a' u' A B A' B' : Z) :
  0 < B -> 0 < B' -> 0 < u -> 0 < u' ->
  a * B <= A -> A' < a' * B' -> A * B' * u <= A' * B * u' ->
  a * u < a' * u'.
Proof.
  intros HB HB' Hu Hu' L U H.
  assert (P : 0 < B * B') by (apply Z.mul_pos_pos; assumption).
  apply (Z.mul_lt_mono_pos_r (B * B')); [assumption|].
  assert (S1 : a * B * (B' * u) <= A * (B' * u))
    by (apply Z.mul_le_mono_nonneg_r; nia).
  assert (S2 : A' * (B * u') < a' * B' * (B * u'))
    by (apply Z.mul_lt_mono_pos_r; nia).
  nia.
Qed.

Lemma quotient_bounds (A B : Z) :
  0 <= A -> 0 < B ->
  let q := A / B in
  0 <= q /\ q * B <= A /\ A < (q + 1) * B.
Proof.
  intros HA HB. cbv zeta.
  pose proof (Z.div_mod A B ltac:(lia)).
  pose proof (Z.mod_pos_bound A B HB).
  assert (0 <= A / B) by (apply Z.div_pos; lia). nia.
Qed.

Lemma target_exponent_min (A B e : Z) : -1074 <= target_exponent A B e.
Proof. unfold target_exponent. rewrite fexp64_eq. lia. Qed.

Lemma target_exponent_mono (A B e A' B' e' : Z) :
  0 <= A -> 0 < B -> 0 <= A' -> 0 < B' ->
  well_scaled A B e -> value_le A B e A' B' e' ->
  target_exponent A B e <= target_exponent A' B' e'.
Proof.
  intros HA HB HA' HB' W H.
  pose proof (target_exponent_min A' B' e') as M'.
  unfold well_scaled, target_exponent in *.
  destruct (quotient_bounds A B HA HB) as (Q0 & QL & QU).
  destruct (quotient_bounds A' B' HA' HB') as (Q0' & QL' & QU').
  set (q := A / B) in *. set (q' := A' / B') in *.
  destruct (Z.eq_dec q 0) as [E0|N0].
  { rewrite E0 in *. cbn [Zdigits2] in *. rewrite fexp64_eq in W.
    rewrite !fexp64_eq. lia. }
  apply fexp64_mono.
  pose proof (Zdigits2_bounds q ltac:(lia)) as [DL _].
  pose proof (Zdigits2_upper q' Q0') as DU'.
  pose proof (Zdigits2_pos q ltac:(lia)) as Dp.
  pose proof (Zdigits2_nonneg q' Q0') as Dp'.
  set (k := Z.min e e') in *.
  assert (C : 2 ^ (Zdigits2 q - 1) * 2 ^ (e - k)
              < 2 ^ (Zdigits2 q') * 2 ^ (e' - k)).
  { apply (product_chain _ _ _ _ A B A' B'); try assumption;
      try (apply Z.pow_pos_nonneg; lia); [nia|nia]. }
  rewrite <- !Z.pow_add_r in C by lia.
  apply Z.pow_lt_mono_r_iff in C; lia.
Qed.

Lemma rounded_significand_mono (A B e A' B' e' : Z) :
  0 <= A -> 0 < B -> 0 <= A' -> 0 < B' ->
  well_scaled A B e -> well_scaled A' B' e' ->
  value_le A B e A' B' e' ->
  target_exponent A B e = target_exponent A' B' e' ->
  rounded_significand A B e <= rounded_significand A' B' e'.
Proof.
  intros HA HB HA' HB' W W' H Eq.
  unfold rounded_significand. rewrite <- Eq.
  unfold well_scaled in W, W'.
  fold (target_exponent A B e) in W. fold (target_exponent A' B' e') in W'.
  rewrite <- Eq in W'. set (E := target_exponent A B e) in *.
  set (k := Z.min e e').
  assert (P : forall n, 0 <= n -> 0 < 2 ^ n)
    by (intros; apply Z.pow_pos_nonneg; lia).
  apply nearest_even_mono; try (apply Z.mul_pos_pos; [lia|apply P; lia]).
  unfold value_le in H. fold k in H.
  assert (S : A * B' * 2 ^ (e - k) * 2 ^ (E - e - e' + k)
              <= A' * B * 2 ^ (e' - k) * 2 ^ (E - e - e' + k)).
  { apply Z.mul_le_mono_nonneg_r; [|exact H].
    apply Z.lt_le_incl, P. lia. }
  rewrite <- !Z.mul_assoc, <- !Z.pow_add_r in S by lia.
  replace (e - k + (E - e - e' + k)) with (E - e') in S by lia.
  replace (e' - k + (E - e - e' + k)) with (E - e) in S by lia.
  lia.
Qed.

Lemma rounded_significand_normal (A B e : Z) :
  0 <= A -> 0 < B -> well_scaled A B e ->
  -1074 < target_exponent A B e ->
  2 ^ 52 <= rounded_significand A B e.
Proof.
  intros HA HB W N. unfold rounded_significand.
  unfold well_scaled in W. fold (target_exponent A B e) in W.
  assert (Eq : target_exponent A B e = Zdigits2 (A / B) + e - 53).
  { unfold target_exponent in *. rewrite fexp64_eq in *. lia. }
  rewrite Eq in *.
  destruct (quotient_bounds A B HA HB) as (Q0 & QL & QU).
  set (q := A / B) in *.
  assert (q <> 0). { intros E0. rewrite E0 in *. cbn [Zdigits2] in *. lia. }
  pose proof (Zdigits2_bounds q ltac:(lia)) as [DL _].
  set (n := Zdigits2 q + e - 53 - e) in *.
  assert (P : 0 < 2 ^ n) by (apply Z.pow_pos_nonneg; lia).
  pose proof (nearest_even_bounds A (B * 2 ^ n) ltac:(nia)) as [L _].
  assert (2 ^ 52 <= A / (B * 2 ^ n)); [|lia].
  apply Z.div_le_lower_bound; [nia|].
  assert (2 ^ n * 2 ^ 52 <= q); [|nia].
  rewrite <- Z.pow_add_r by lia.
  replace (n + 52) with (Zdigits2 q - 1) by lia. assumption.
Qed.

Theorem round_quotient_mono (A B e A' B' e' : Z) :
  0 <= A -> 0 < B -> 0 <= A' -> 0 < B' ->
  well_scaled A B e -> well_scaled A' B' e' ->
  value_le A B e A' B' e' ->
  SFleb (round_quotient A B e) (round_quotient A' B' e') = true.
Proof.
  intros HA HB HA' HB' W W' H.
  rewrite !round_quotient_finish by assumption.
  apply finish_le.
  - apply target_exponent_mono; assumption.
  - apply rounded_significand_bounds; assumption.
  - apply rounded_significand_bounds; assumption.
  - apply rounded_significand_mono; assumption.
  - intros L. apply rounded_significand_normal; try assumption.
    pose proof (target_exponent_min A B e). lia.
Qed.

(** ** Valid binary64 numbers *)

Lemma bounded_spec (m : positive) (e : Z) :
  bounded prec emax m e = true ->
  fexp64 (Zdigits2 (Z.pos m) + e) = e /\ -1074 <= e <= 971
  /\ Z.pos m < 2 ^ 53 /\ (-1074 < e -> 2 ^ 52 <= Z.pos m).
Proof.
  unfold bounded, canonical_mantissa. intros H.
  apply andb_true_iff in H. destruct H as [C U].
  apply Z.eqb_eq in C. apply Z.leb_le in U.
  change (emax - prec) with 971 in U.
  change (SpecFloat.fexp prec emax) with fexp64 in C.
  change (Z.pos (digits2_pos m)) with (Zdigits2 (Z.pos m)) in C.
  split; [exact C|]. rewrite fexp64_eq in C.
  pose proof (Zdigits2_bounds (Z.pos m) ltac:(lia)) as [L R].
  split; [lia|]. split.
  - eapply Z.lt_le_trans; [exact R|]. apply Z.pow_le_mono_r; lia.
  - intros N. replace (Zdigits2 (Z.pos m)) with 53 in L by lia. exact L.
Qed.

Lemma finish_valid (N E : Z) :
  -1074 <= E -> 0 <= N <= 2 ^ 53 -> (-1074 < E -> 2 ^ 52 <= N) ->
  valid_binary (finish N E) = true.
Proof.
  intros HE HN Nm. unfold finish.
  destruct (Z.eqb_spec N 0); [reflexivity|].
  destruct (Z.eqb_spec N (2 ^ 53)) as [->|N1].
  - destruct (Z.leb_spec (E + 1) 971); [|reflexivity].
    cbn [valid_binary]. unfold bounded, canonical_mantissa.
    apply andb_true_iff. split; [|apply Z.leb_le; change (emax - prec) with 971; lia].
    apply Z.eqb_eq. change (SpecFloat.fexp prec emax) with fexp64.
    change (Z.pos (digits2_pos (Z.to_pos (2 ^ 52)))) with 53.
    rewrite fexp64_eq. lia.
  - destruct (Z.leb_spec E 971); [|reflexivity].
    cbn [valid_binary]. unfold bounded, canonical_mantissa.
    apply andb_true_iff. split; [|apply Z.leb_le; change (emax - prec) with 971; lia].
    apply Z.eqb_eq. change (SpecFloat.fexp prec emax) with fexp64.
    change (Z.pos (digits2_pos (Z.to_pos N)))
      with (Zdigits2 (Z.pos (Z.to_pos N))).
    rewrite Z2Pos.id by lia. rewrite fexp64_eq.
    assert (D : Zdigits2 N <= 53) by (apply Zdigits2_le; lia).
    destruct (Z.eq_dec E (-1074)) as [->|]; [lia|].
    assert (53 <= Zdigits2 N); [|lia].
    apply (Zdigits2_ge N 52); [lia|]. apply Nm. lia.
Qed.

Lemma round_quotient_valid (A B e : Z) :
  0 <= A -> 0 < B -> well_scaled A B e ->
  valid_binary (round_quotient A B e) = true.
Proof.
  intros HA HB W. rewrite round_quotient_finish by assumption.
  apply finish_valid.
  - apply target_exponent_min.
  - apply rounded_significand_bounds; assumption.
  - apply rounded_significand_normal; assumption.
Qed.

Lemma round_quotient_nonneg (A B e : Z) :
  0 <= A -> 0 < B -> well_scaled A B e ->
  nonneg (round_quotient A B e) = true.
Proof.
  intros HA HB W. rewrite round_quotient_finish by assumption.
  apply nonneg_finish.
Qed.

(** The order of two valid numbers is the order of their values. *)
Lemma valid_order (m m' : positive) (e e' : Z) :
  bounded prec emax m e = true -> bounded prec emax m' e' = true ->
  SFleb (S754_finite false m e) (S754_finite false m' e') = true ->
  value_le (Z.pos m) 1 e (Z.pos m') 1 e'.
Proof.
  intros V V' H. apply SFleb_finite in H.
  destruct (bounded_spec m e V) as (_ & R & U & _).
  destruct (bounded_spec m' e' V') as (_ & R' & _ & N').
  unfold value_le. rewrite !Z.mul_1_r.
  destruct H as [L | [-> L]].
  - rewrite Z.min_l by lia. rewrite Z.sub_diag, Z.pow_0_r, Z.mul_1_r.
    specialize (N' ltac:(lia)).
    assert (2 ^ 1 <= 2 ^ (e' - e)) by (apply Z.pow_le_mono_r; lia).
    change (2 ^ 1) with 2 in *. change (2 ^ 53) with (2 ^ 52 * 2) in U. nia.
  - rewrite Z.min_id, Z.sub_diag, Z.pow_0_r. lia.
Qed.

Lemma SFleb_antisym (x y : spec_float) :
  nonneg x = true -> nonneg y = true ->
  SFleb x y = true -> SFleb y x = true -> x = y.
Proof.
  destruct x as [[|]|[|]| |[|] m e]; try discriminate;
    destruct y as [[|]|[|]| |[|] m' e']; try discriminate;
    intros _ _; try reflexivity; try discriminate.
  intros H H'. apply SFleb_finite in H, H'.
  assert (e = e') by lia. subst e'. f_equal. lia.
Qed.

(** ** Rounding a dyadic number *)

Lemma iter_xO (d m : positive) :
  Z.pos (Pos.iter xO m d) = Z.pos m * 2 ^ Z.pos d.
Proof.
  revert m. induction d as [|d IH] using Pos.peano_ind; intros m.
  - cbn [Pos.iter]. change (2 ^ 1) with 2. lia.
  - rewrite Pos.iter_succ, Pos2Z.inj_xO, IH, Pos2Z.inj_succ, Z.pow_succ_r; lia.
Qed.

Lemma shl_align_spec (m : positive) (e k : Z) :
  k <= e ->
  Z.pos (fst (shl_align m e k)) = Z.pos m * 2 ^ (e - k)
  /\ snd (shl_align m e k) = k.
Proof.
  intros H. unfold shl_align.
  destruct (k - e) as [|d|d] eqn:D; try lia; cbn [fst snd].
  - replace (e - k) with 0 by lia. lia.
  - rewrite iter_xO. replace (e - k) with (Z.pos d) by lia. lia.
Qed.

Lemma round_dyadic_aligned (M K : Z) :
  0 < M ->
  round_dyadic M K
  = round_quotient (fst (aligned M K)) 1 (snd (aligned M K)).
Proof.
  intros H. destruct M as [|m|m]; try lia.
  unfold round_dyadic, binary_normalize, binary_round, aligned.
  change (SpecFloat.fexp prec emax) with fexp64.
  change (Z.pos (digits2_pos m)) with (Zdigits2 (Z.pos m)).
  set (E := fexp64 (Zdigits2 (Z.pos m) + K)).
  unfold round_quotient. rewrite Z.div_1_r, Z.mod_1_r.
  change (new_location 1 0) with loc_Exact.
  destruct (Z.ltb_spec E K) as [L|L]; cbn [fst snd].
  - destruct (shl_align_spec m K E ltac:(lia)) as [F S].
    destruct (shl_align m K E) as [mz ez]. cbn [fst snd] in *.
    rewrite F, S. reflexivity.
  - unfold shl_align. destruct (E - K) eqn:D; try lia; reflexivity.
Qed.

Lemma Zdigits2_mul_pow2 (m j : Z) :
  0 < m -> 0 <= j -> Zdigits2 (m * 2 ^ j) = Zdigits2 m + j.
Proof.
  intros Hm Hj. assert (0 < 2 ^ j) by (apply Z.pow_pos_nonneg; lia).
  rewrite !Zdigits2_log2 by nia. rewrite Z.log2_mul_pow2 by lia. lia.
Qed.

Lemma aligned_spec (M K : Z) :
  0 < M ->
  let M' := fst (aligned M K) in
  let K' := snd (aligned M K) in
  0 < M' /\ K' <= K /\ M' = M * 2 ^ (K - K') /\ well_scaled M' 1 K'.
Proof.
  intros H. unfold aligned. cbv zeta.
  set (E := fexp64 (Zdigits2 M + K)).
  destruct (Z.ltb_spec E K) as [L|L]; cbn [fst snd].
  - assert (0 < 2 ^ (K - E)) by (apply Z.pow_pos_nonneg; lia).
    repeat split; try lia; try nia.
    unfold well_scaled. rewrite Z.div_1_r, Zdigits2_mul_pow2 by lia.
    replace (Zdigits2 M + (K - E) + E) with (Zdigits2 M + K) by lia.
    fold E. lia.
  - rewrite Z.sub_diag, Z.pow_0_r. repeat split; try lia.
    unfold well_scaled. rewrite Z.div_1_r. fold E. lia.
Qed.

Lemma value_le_rescale (M K M' K' j j' : Z) :
  0 <= j -> 0 <= j' ->
  value_le M 1 K M' 1 K' ->
  value_le (M * 2 ^ j) 1 (K - j) (M' * 2 ^ j') 1 (K' - j').
Proof.
  intros Hj Hj' H. set (k := Z.min (K - j) (K' - j')).
  apply (value_le_scaled _ _ _ _ _ _ k) in H; [|lia|lia].
  apply (value_le_scaled _ _ _ _ _ _ k); [lia|lia|].
  rewrite !Z.mul_1_r in *.
  rewrite <- !Z.mul_assoc, <- !Z.pow_add_r by lia.
  replace (j + (K - j - k)) with (K - k) by lia.
  replace (j' + (K' - j' - k)) with (K' - k) by lia. exact H.
Qed.

Lemma round_dyadic_zero (K : Z) : round_dyadic 0 K = S754_zero false.
Proof. reflexivity. Qed.

Lemma round_dyadic_nonneg (M K : Z) :
  0 <= M -> nonneg (round_dyadic M K) = true.
Proof.
  intros H. destruct (Z.eq_dec M 0) as [->|]; [reflexivity|].
  rewrite round_dyadic_aligned by lia.
  destruct (aligned_spec M K ltac:(lia)) as (P & _ & _ & W).
  apply round_quotient_nonneg; [lia|lia|exact W].
Qed.

Lemma round_dyadic_valid (M K : Z) :
  0 <= M -> valid_binary (round_dyadic M K) = true.
Proof.
  intros H. destruct (Z.eq_dec M 0) as [->|]; [reflexivity|].
  rewrite round_dyadic_aligned by lia.
  destruct (aligned_spec M K ltac:(lia)) as (P & _ & _ & W).
  apply round_quotient_valid; [lia|lia|exact W].
Qed.

Theorem round_dyadic_mono (M K M' K' : Z) :
  0 <= M -> 0 <= M' -> value_le M 1 K M' 1 K' ->
  SFleb (round_dyadic M K) (round_dyadic M' K') = true.
Proof.
  intros H H' L.
  destruct (Z.eq_dec M 0) as [->|N].
  { rewrite round_dyadic_zero. apply SFleb_zero_l, round_dyadic_nonneg, H'. }
  assert (P' : 0 < M').
  { unfold value_le in L. rewrite !Z.mul_1_r in L.
    assert (0 < 2 ^ (K - Z.min K K')) by (apply Z.pow_pos_nonneg; lia).
    assert (0 < 2 ^ (K' - Z.min K K')) by (apply Z.pow_pos_nonneg; lia).
    nia. }
  rewrite !round_dyadic_aligned by lia.
  destruct (aligned_spec M K ltac:(lia)) as (P1 & L1 & E1 & W1).
  destruct (aligned_spec M' K' P') as (P2 & L2 & E2 & W2).
  apply round_quotient_mono; try lia; try assumption.
  rewrite E1, E2.
  pose proof (value_le_rescale M K M' K' (K - snd (aligned M K))
                (K' - snd (aligned M' K')) ltac:(lia) ltac:(lia) L) as R.
  replace (K - (K - snd (aligned M K))) with (snd (aligned M K)) in R by lia.
  replace (K' - (K' - snd (aligned M' K'))) with (snd (aligned M' K')) in R
    by lia.
  exact R.
Qed.

Lemma value_le_refl (M K : Z) : value_le M 1 K M 1 K.
Proof. unfold value_le. lia. Qed.

Lemma round_dyadic_value (M K M' K' : Z) :
  0 <= M -> 0 <= M' ->
  value_le M 1 K M' 1 K' -> value_le M' 1 K' M 1 K ->
  round_dyadic M K = round_dyadic M' K'.
Proof.
  intros H H' L L'.
  apply SFleb_antisym; try apply round_dyadic_nonneg;
    try apply round_dyadic_mono; assumption.
Qed.

Lemma round_dyadic_rescale (M K j : Z) :
  0 <= M -> 0 <= j -> round_dyadic (M * 2 ^ j) (K - j) = round_dyadic M K.
Proof.
  intros H Hj. assert (0 < 2 ^ j) by (apply Z.pow_pos_nonneg; lia).
  apply round_dyadic_value; try nia.
  - pose proof (value_le_rescale M K M K j 0 Hj ltac:(lia) (value_le_refl M K))
      as R.
    rewrite Z.pow_0_r, Z.mul_1_r, Z.sub_0_r in R. exact R.
  - pose proof (value_le_rescale M K M K 0 j ltac:(lia) Hj (value_le_refl M K))
      as R.
    rewrite Z.pow_0_r, Z.mul_1_r, Z.sub_0_r in R. exact R.
Qed.

(** A valid number is its own rounding. *)
Theorem round_dyadic_id (m : positive) (e : Z) :
  bounded prec emax m e = true ->
  round_dyadic (Z.pos m) e = S754_finite false m e.
Proof.
  intros V. destruct (bounded_spec m e V) as (C & R & U & _).
  rewrite round_dyadic_aligned by lia. unfold aligned. cbv zeta.
  rewrite C, Z.ltb_irrefl. cbn [fst snd].
  assert (W : well_scaled (Z.pos m) 1 e).
  { unfold well_scaled. rewrite Z.div_1_r, C. lia. }
  rewrite round_quotient_finish by (try lia; exact W).
  unfold rounded_significand, target_exponent.
  rewrite Z.div_1_r, C, Z.sub_diag, Z.pow_0_r, nearest_even_integer.
  unfold finish.
  destruct (Z.eqb_spec (Z.pos m) 0); [lia|].
  destruct (Z.eqb_spec (Z.pos m) (2 ^ 53)); [lia|].
  destruct (Z.leb_spec e 971); [reflexivity|lia].
Qed.

(** ** The operations as roundings of exact values *)

Lemma significand_nonneg (x : spec_float) : 0 <= significand x.
Proof. destruct x; cbn; lia. Qed.

Lemma exponent_min (x : spec_float) :
  valid_binary x = true -> -1074 <= exponent x.
Proof.
  destruct x as [s|s| |s m e]; cbn [exponent valid_binary]; try lia.
  intros V. destruct (bounded_spec m e V) as (_ & R & _). lia.
Qed.

Lemma value_le_zero (K M' K' : Z) : 0 <= M' -> value_le 0 1 K M' 1 K'.
Proof.
  intros H. unfold value_le.
  assert (0 < 2 ^ (K' - Z.min K K')) by (apply Z.pow_pos_nonneg; lia).
  nia.
Qed.

Lemma order_value (x y : spec_float) :
  valid_binary x = true -> valid_binary y = true ->
  finite_nonneg x = true -> finite_nonneg y = true ->
  SFleb x y = true ->
  value_le (significand x) 1 (exponent x) (significand y) 1 (exponent y).
Proof.
  destruct x as [[|]|[|]| |[|] m e]; try discriminate;
    destruct y as [[|]|[|]| |[|] m' e']; try discriminate;
    intros V V' _ _ H; cbn [significand exponent].
  - apply value_le_zero. lia.
  - apply valid_order; assumption.
Qed.

Lemma SFleb_finite_nonneg (x y : spec_float) :
  nonneg x = true -> finite_nonneg y = true -> SFleb x y = true ->
  finite_nonneg x = true.
Proof.
  destruct x as [[|]|[|]| |[|] m e]; try discriminate;
    destruct y as [[|]|[|]| |[|] m' e']; try discriminate; reflexivity.
Qed.

(** *** Addition *)

Lemma SFadd_dyadic (x u : spec_float) :
  valid_binary x = true -> valid_binary u = true ->
  finite_nonneg x = true -> finite_nonneg u = true ->
  let k := Z.min (exponent x) (exponent u) in
  SF64add x u
  = round_dyadic (significand x * 2 ^ (exponent x - k)
                  + significand u * 2 ^ (exponent u - k)) k.
Proof.
  intros Vx Vu Fx Fu k.
  pose proof (exponent_min x Vx) as Ex. pose proof (exponent_min u Vu) as Eu.
  destruct x as [[|]|[|]| |[|] m e]; try discriminate;
    destruct u as [[|]|[|]| |[|] m' e']; try discriminate;
    cbn [significand exponent] in *.
  - reflexivity.
  - unfold k. rewrite Z.min_l by lia. rewrite Z.mul_0_l, Z.add_0_l.
    replace (-1074) with (e' - (e' - -1074)) at 2 by lia.
    rewrite round_dyadic_rescale by lia.
    rewrite round_dyadic_id by exact Vu. reflexivity.
  - unfold k. rewrite Z.min_r by lia. rewrite Z.mul_0_l, Z.add_0_r.
    replace (-1074) with (e - (e - -1074)) at 2 by lia.
    rewrite round_dyadic_rescale by lia.
    rewrite round_dyadic_id by exact Vx. reflexivity.
  - unfold SF64add, SFadd. fold k. cbn [cond_Zopp].
    destruct (shl_align_spec m e k ltac:(lia)) as [-> _].
    destruct (shl_align_spec m' e' k ltac:(lia)) as [-> _].
    reflexivity.
Qed.

Lemma value_le_add (M K M' K' U L U' L' : Z) :
  value_le M 1 K M' 1 K' -> value_le U 1 L U' 1 L' ->
  value_le (M * 2 ^ (K - Z.min K L) + U * 2 ^ (L - Z.min K L)) 1 (Z.min K L)
    (M' * 2 ^ (K' - Z.min K' L') + U' * 2 ^ (L' - Z.min K' L')) 1
    (Z.min K' L').
Proof.
  intros H1 H2. set (k := Z.min K L). set (k' := Z.min K' L').
  set (j := Z.min k k').
  apply (value_le_scaled _ _ _ _ _ _ j) in H1; [|lia|lia].
  apply (value_le_scaled _ _ _ _ _ _ j) in H2; [|lia|lia].
  apply (value_le_scaled _ _ _ _ _ _ j); [lia|lia|].
  rewrite !Z.mul_1_r in *.
  rewrite !Z.mul_add_distr_r, <- !Z.mul_assoc, <- !Z.pow_add_r by lia.
  replace (K - k + (k - j)) with (K - j) by lia.
  replace (L - k + (k - j)) with (L - j) by lia.
  replace (K' - k' + (k' - j)) with (K' - j) by lia.
  replace (L' - k' + (k' - j)) with (L' - j) by lia.
  lia.
Qed.

(** *** Multiplication *)

Lemma product_well_scaled (m m' : positive) (e e' : Z) :
  bounded prec emax m e = true -> bounded prec emax m' e' = true ->
  well_scaled (Z.pos m * Z.pos m') 1 (e + e').
Proof.
  intros V V'.
  destruct (bounded_spec m e V) as (C & R & _).
  destruct (bounded_spec m' e' V') as (C' & R' & _).
  unfold well_scaled. rewrite Z.div_1_r.
  pose proof (Zdigits2_bounds (Z.pos m) ltac:(lia)) as [L _].
  pose proof (Zdigits2_bounds (Z.pos m') ltac:(lia)) as [L' _].
  pose proof (Zdigits2_pos (Z.pos m) ltac:(lia)) as P.
  pose proof (Zdigits2_pos (Z.pos m') ltac:(lia)) as P'.
  assert (D : Zdigits2 (Z.pos m) + Zdigits2 (Z.pos m') - 2 + 1
              <= Zdigits2 (Z.pos m * Z.pos m')).
  { apply Zdigits2_ge; [lia|].
    replace (Zdigits2 (Z.pos m) + Zdigits2 (Z.pos m') - 2)
      with ((Zdigits2 (Z.pos m) - 1) + (Zdigits2 (Z.pos m') - 1)) by lia.
    rewrite Z.pow_add_r by lia.
    apply Z.mul_le_mono_nonneg; try assumption;
      apply Z.lt_le_incl, Z.pow_pos_nonneg; lia. }
  rewrite fexp64_eq in *. lia.
Qed.

Lemma SFmul_dyadic (x k : spec_float) :
  valid_binary x = true -> valid_binary k = true ->
  finite_nonneg x = true -> finite_nonneg k = true ->
  SF64mul x k
  = round_dyadic (significand x * significand k) (exponent x + exponent k).
Proof.
  intros Vx Vk Fx Fk.
  destruct x as [[|]|[|]| |[|] m e]; try discriminate;
    destruct k as [[|]|[|]| |[|] m' e']; try discriminate;
    cbn [significand exponent]; try reflexivity.
  pose proof (product_well_scaled m m' e e' Vx Vk) as W.
  rewrite round_dyadic_aligned by lia. unfold aligned. cbv zeta.
  unfold well_scaled in W. rewrite Z.div_1_r in W.
  destruct (Z.ltb_spec (fexp64 (Zdigits2 (Z.pos m * Z.pos m') + (e + e')))
              (e + e')) as [L|_]; [lia|].
  cbn [fst snd]. unfold round_quotient. rewrite Z.div_1_r, Z.mod_1_r.
  reflexivity.
Qed.

Lemma value_le_mul (M K M' K' c j : Z) :
  0 <= c -> value_le M 1 K M' 1 K' ->
  value_le (M * c) 1 (K + j) (M' * c) 1 (K' + j).
Proof.
  intros Hc H. unfold value_le in *.
  replace (Z.min (K + j) (K' + j)) with (Z.min K K' + j) by lia.
  replace (K + j - (Z.min K K' + j)) with (K - Z.min K K') by lia.
  replace (K' + j - (Z.min K K' + j)) with (K' - Z.min K K') by lia.
  rewrite !Z.mul_1_r in *.
  replace (M * c * 2 ^ (K - Z.min K K'))
    with (M * 2 ^ (K - Z.min K K') * c) by ring.
  replace (M' * c * 2 ^ (K' - Z.min K K'))
    with (M' * 2 ^ (K' - Z.min K K') * c) by ring.
  apply Z.mul_le_mono_nonneg_r; assumption.
Qed.

(** *** Division *)

Lemma SFdiv_quotient (m m' : positive) (e e' : Z) :
  SF64div (S754_finite false m e) (S754_finite false m' e')
  = round_quotient (quotient_numerator m e m' e') (Z.pos m')
      (quotient_exponent m e m' e').
Proof.
  unfold SF64div, SFdiv, SFdiv_core_binary, round_quotient,
    quotient_numerator.
  change (SpecFloat.fexp prec emax) with fexp64.
  fold (quotient_exponent m e m' e').
  set (q := quotient_exponent m e m' e').
  assert (S : 0 <= e - e' - q) by (unfold q, quotient_exponent; lia).
  assert (N : match e - e' - q with
              | 0 => Z.pos m
              | Z.pos _ => Z.shiftl (Z.pos m) (e - e' - q)
              | Z.neg _ => 0
              end = Z.pos m * 2 ^ (e - e' - q)).
  { destruct (e - e' - q) as [|p|p] eqn:Q; try lia.
    apply Z.shiftl_mul_pow2. lia. }
  rewrite N. unfold Z.div, Z.modulo.
  destruct (Z.div_eucl (Z.pos m * 2 ^ (e - e' - q)) (Z.pos m')) as [a b].
  reflexivity.
Qed.

Lemma quotient_well_scaled (m m' : positive) (e e' : Z) :
  well_scaled (quotient_numerator m e m' e') (Z.pos m')
    (quotient_exponent m e m' e').
Proof.
  unfold well_scaled, quotient_numerator.
  set (q := quotient_exponent m e m' e').
  set (A := Z.pos m * 2 ^ (e - e' - q)).
  assert (S : 0 <= e - e' - q) by (unfold q, quotient_exponent; lia).
  destruct (Z_le_gt_dec q (-1074)) as [Lo|Hi].
  { rewrite fexp64_eq. lia. }
  set (d := Zdigits2 (Z.pos m)). set (d' := Zdigits2 (Z.pos m')).
  assert (Q : q <= d + e - (d' + e') - 53).
  { unfold q, quotient_exponent in *. fold d d' in Hi |- *.
    rewrite fexp64_eq in *. lia. }
  pose proof (Zdigits2_bounds (Z.pos m) ltac:(lia)) as [L _].
  pose proof (Zdigits2_bounds (Z.pos m') ltac:(lia)) as [_ U'].
  pose proof (Zdigits2_pos (Z.pos m) ltac:(lia)) as P.
  pose proof (Zdigits2_pos (Z.pos m') ltac:(lia)) as P'.
  fold d in L, P. fold d' in U', P'.
  set (t := d + e - (d' + e') - q - 1).
  assert (T : 52 <= t) by (unfold t; lia).
  assert (G : 2 ^ t <= A / Z.pos m').
  { apply Z.div_le_lower_bound; [lia|].
    assert (Z.pos m' * 2 ^ t <= 2 ^ d' * 2 ^ t).
    { apply Z.mul_le_mono_nonneg_r; [|lia].
      apply Z.lt_le_incl, Z.pow_pos_nonneg; lia. }
    assert (2 ^ (d - 1) * 2 ^ (e - e' - q) <= A).
    { unfold A. apply Z.mul_le_mono_nonneg_r; [|assumption].
      apply Z.lt_le_incl, Z.pow_pos_nonneg; lia. }
    rewrite <- Z.pow_add_r in * by lia.
    replace (d' + t) with (d - 1 + (e - e' - q)) in * by (unfold t; lia).
    lia. }
  apply Zdigits2_ge in G; [|lia].
  apply Z.le_trans with (fexp64 (t + 1 + q)); [|apply fexp64_mono; lia].
  rewrite fexp64_eq. unfold t. lia.
Qed.

Lemma quotient_numerator_nonneg (m m' : positive) (e e' : Z) :
  0 <= quotient_numerator m e m' e'.
Proof.
  unfold quotient_numerator.
  assert (0 <= 2 ^ (e - e' - quotient_exponent m e m' e'))
    by (apply Z.pow_nonneg; lia).
  nia.
Qed.

Lemma value_le_div (m1 m2 m' : positive) (e1 e2 e' : Z) :
  value_le (Z.pos m1) 1 e1 (Z.pos m2) 1 e2 ->
  value_le (quotient_numerator m1 e1 m' e') (Z.pos m')
    (quotient_exponent m1 e1 m' e')
    (quotient_numerator m2 e2 m' e') (Z.pos m')
    (quotient_exponent m2 e2 m' e').
Proof.
  intros H. unfold quotient_numerator.
  set (q1 := quotient_exponent m1 e1 m' e').
  set (q2 := quotient_exponent m2 e2 m' e').
  assert (S1 : q1 <= e1 - e') by (unfold q1, quotient_exponent; lia).
  assert (S2 : q2 <= e2 - e') by (unfold q2, quotient_exponent; lia).
  set (j := Z.min q1 q2).
  apply (value_le_scaled _ _ _ _ _ _ (j + e')) in H; [|lia|lia].
  unfold value_le. fold j. rewrite !Z.mul_1_r in H.
  replace (Z.pos m1 * 2 ^ (e1 - e' - q1) * Z.pos m' * 2 ^ (q1 - j))
    with (Z.pos m1 * (2 ^ (e1 - e' - q1) * 2 ^ (q1 - j)) * Z.pos m') by ring.
  replace (Z.pos m2 * 2 ^ (e2 - e' - q2) * Z.pos m' * 2 ^ (q2 - j))
    with (Z.pos m2 * (2 ^ (e2 - e' - q2) * 2 ^ (q2 - j)) * Z.pos m') by ring.
  rewrite <- !Z.pow_add_r by lia.
  replace (e1 - e' - q1 + (q1 - j)) with (e1 - (j + e')) by lia.
  replace (e2 - e' - q2 + (q2 - j)) with (e2 - (j + e')) by lia.
  apply Z.mul_le_mono_nonneg_r; [lia|exact H].
Qed.

(** ** The order with [NaN] on top *)

Lemma nonneg_cases (x : spec_float) :
  nonneg x = true -> finite_nonneg x = true \/ x = S754_infinity false.
Proof.
  destruct x as [[|]|[|]| |[|] m e]; try discriminate; auto.
Qed.

Lemma SFleb_refl (x : spec_float) : nonneg x = true -> SFleb x x = true.
Proof.
  destruct x as [[|]|[|]| |[|] m e]; try discriminate; try reflexivity.
  intros _. apply SFleb_finite. lia.
Qed.

Lemma SFleb_trans (x y z : spec_float) :
  nonneg x = true -> nonneg y = true -> nonneg z = true ->
  SFleb x y = true -> SFleb y z = true -> SFleb x z = true.
Proof.
  destruct x as [[|]|[|]| |[|] m e]; try discriminate;
    destruct y as [[|]|[|]| |[|] m' e']; try discriminate;
    destruct z as [[|]|[|]| |[|] m'' e'']; try discriminate;
    intros _ _ _ H H'; try reflexivity; try discriminate.
  apply SFleb_finite in H, H'. apply SFleb_finite. lia.
Qed.

Lemma SF_below_trans (x y z : spec_float) :
  SF_below x y -> SF_below y z -> SF_below x z.
Proof.
  intros [E | (Nx & Ny & L)] [E' | (Ny' & Nz & L')]; try (now left).
  - rewrite E in Ny'. discriminate.
  - right. repeat split; try assumption.
    exact (SFleb_trans x y z Nx Ny Nz L L').
Qed.

Lemma SF_below_refl (x : spec_float) :
  x = S754_nan \/ nonneg x = true -> SF_below x x.
Proof.
  intros [->|N]; [now left|right]. auto using SFleb_refl.
Qed.

Lemma SF_below_range (x y : spec_float) :
  SF_below x y -> y = S754_nan \/ nonneg y = true.
Proof. intros [H|(_ & H & _)]; auto. Qed.

Lemma SF_below_zero (y : spec_float) :
  y = S754_nan \/ nonneg y = true -> SF_below (S754_zero false) y.
Proof.
  intros [->|N]; [now left|right]. auto using SFleb_zero_l.
Qed.

(** *** Multiplication by a non-negative finite number *)

Lemma SFmul_nonneg (x k : spec_float) :
  valid_binary x = true -> valid_binary k = true ->
  nonneg x = true -> finite_nonneg k = true ->
  SF64mul x k = S754_nan \/ nonneg (SF64mul x k) = true.
Proof.
  intros Vx Vk Nx Fk. destruct (nonneg_cases x Nx) as [Fx | ->].
  - right. rewrite SFmul_dyadic by assumption.
    apply round_dyadic_nonneg, Z.mul_nonneg_nonneg; apply significand_nonneg.
  - destruct k as [[|]|[|]| |[|] m e]; try discriminate; cbn; auto.
Qed.

Lemma SFmul_below (x x' k : spec_float) :
  valid_binary x = true -> valid_binary x' = true -> valid_binary k = true ->
  finite_nonneg k = true ->
  SF_below x x' -> SF_below (SF64mul x k) (SF64mul x' k).
Proof.
  intros Vx Vx' Vk Fk [-> | (Nx & Nx' & L)].
  { left. destruct k; reflexivity. }
  destruct (nonneg_cases x' Nx') as [Fx' | ->].
  - pose proof (SFleb_finite_nonneg x x' Nx Fx' L) as Fx.
    right. rewrite !SFmul_dyadic by assumption.
    pose proof (significand_nonneg x). pose proof (significand_nonneg x').
    pose proof (significand_nonneg k).
    repeat split; try (apply round_dyadic_nonneg; nia).
    apply round_dyadic_mono; try nia.
    apply value_le_mul; [assumption|]. apply order_value; assumption.
  - destruct (SFmul_nonneg x k Vx Vk Nx Fk) as [E|N].
    + destruct k as [[|]|[|]| |[|] m e]; try discriminate;
        [now left|].
      destruct x as [[|]|[|]| |[|] m0 e0]; try discriminate.
      pose proof (SFmul_dyadic (S754_finite false m0 e0)
                    (S754_finite false m e) Vx Vk eq_refl eq_refl) as D.
      rewrite E in D.
      pose proof (round_dyadic_nonneg
                    (significand (S754_finite false m0 e0)
                     * significand (S754_finite false m e))
                    (exponent (S754_finite false m0 e0)
                     + exponent (S754_finite false m e))
                    ltac:(cbn; lia)) as Nn.
      rewrite <- D in Nn. discriminate.
    + destruct k as [[|]|[|]| |[|] m e]; try discriminate;
        [now left|].
      right. repeat split; [assumption|].
      apply SFleb_infinity_r, N.
Qed.

(** *** Division by a positive finite number *)

Lemma SFdiv_nonneg (x : spec_float) (m : positive) (e : Z) :
  nonneg x = true -> nonneg (SF64div x (S754_finite false m e)) = true.
Proof.
  destruct x as [[|]|[|]| |[|] m0 e0]; try discriminate; try reflexivity.
  intros _. rewrite SFdiv_quotient.
  apply round_quotient_nonneg;
    [apply quotient_numerator_nonneg | lia | apply quotient_well_scaled].
Qed.

Lemma SFdiv_below (x x' : spec_float) (m : positive) (e : Z) :
  valid_binary x = true -> valid_binary x' = true ->
  SF_below x x' ->
  SF_below (SF64div x (S754_finite false m e))
           (SF64div x' (S754_finite false m e)).
Proof.
  intros Vx Vx' [-> | (Nx & Nx' & L)]; [now left|right].
  split; [apply SFdiv_nonneg, Nx|]. split; [apply SFdiv_nonneg, Nx'|].
  destruct x' as [[|]|[|]| |[|] m' e']; try discriminate.
  - destruct x as [[|]|[|]| |[|] m0 e0]; try discriminate. reflexivity.
  - apply SFleb_infinity_r, SFdiv_nonneg, Nx.
  - destruct x as [[|]|[|]| |[|] m0 e0]; try discriminate.
    + apply SFleb_zero_l.
      apply (SFdiv_nonneg (S754_finite false m' e')). reflexivity.
    + rewrite !SFdiv_quotient.
      apply round_quotient_mono;
        try apply quotient_numerator_nonneg; try apply quotient_well_scaled;
        try lia.
      apply value_le_div, valid_order; assumption.
Qed.

(** *** Addition *)

Lemma SFadd_nonneg (x u : spec_float) :
  valid_binary x = true -> valid_binary u = true ->
  nonneg x = true -> nonneg u = true -> nonneg (SF64add x u) = true.
Proof.
  intros Vx Vu Nx Nu.
  destruct (nonneg_cases x Nx) as [Fx | ->];
    destruct (nonneg_cases u Nu) as [Fu | ->].
  - rewrite SFadd_dyadic by assumption. apply round_dyadic_nonneg.
    pose proof (significand_nonneg x). pose proof (significand_nonneg u).
    pose proof (exponent_min x Vx). pose proof (exponent_min u Vu).
    apply Z.add_nonneg_nonneg; apply Z.mul_nonneg_nonneg; try assumption;
      apply Z.pow_nonneg; lia.
  - destruct x as [[|]|[|]| |[|] m e]; try discriminate; reflexivity.
  - destruct u as [[|]|[|]| |[|] m e]; try discriminate; reflexivity.
  - reflexivity.
Qed.

Lemma SFadd_infinity (x u : spec_float) :
  nonneg x = true -> nonneg u = true ->
  x = S754_infinity false \/ u = S754_infinity false ->
  SF64add x u = S754_infinity false.
Proof.
  intros Nx Nu [-> | ->].
  - destruct u as [[|]|[|]| |[|] m e]; try discriminate; reflexivity.
  - destruct x as [[|]|[|]| |[|] m e]; try discriminate; reflexivity.
Qed.

Lemma SFadd_below (x x' u u' : spec_float) :
  valid_binary x = true -> valid_binary x' = true ->
  valid_binary u = true -> valid_binary u' = true ->
  SF_below x x' -> SF_below u u' ->
  SF_below (SF64add x u) (SF64add x' u').
Proof.
  intros Vx Vx' Vu Vu' [-> | (Nx & Nx' & Lx)].
  { intros _. left. destruct u'; reflexivity. }
  intros [-> | (Nu & Nu' & Lu)].
  { left. destruct x' as [[|]|[|]| |[|] m e]; reflexivity. }
  right. split; [apply SFadd_nonneg; assumption|].
  split; [apply SFadd_nonneg; assumption|].
  destruct (nonneg_cases x' Nx') as [Fx' | Ix'];
    [destruct (nonneg_cases u' Nu') as [Fu' | Iu']|].
  - pose proof (SFleb_finite_nonneg x x' Nx Fx' Lx) as Fx.
    pose proof (SFleb_finite_nonneg u u' Nu Fu' Lu) as Fu.
    rewrite !SFadd_dyadic by assumption.
    pose proof (significand_nonneg x). pose proof (significand_nonneg u).
    pose proof (significand_nonneg x'). pose proof (significand_nonneg u').
    pose proof (exponent_min x Vx). pose proof (exponent_min u Vu).
    pose proof (exponent_min x' Vx'). pose proof (exponent_min u' Vu').
    apply round_dyadic_mono.
    + apply Z.add_nonneg_nonneg; apply Z.mul_nonneg_nonneg; try assumption;
        apply Z.pow_nonneg; lia.
    + apply Z.add_nonneg_nonneg; apply Z.mul_nonneg_nonneg; try assumption;
        apply Z.pow_nonneg; lia.
    + apply value_le_add; apply order_value; assumption.
  - rewrite (SFadd_infinity x' u') by auto.
    apply SFleb_infinity_r, SFadd_nonneg; assumption.
  - rewrite (SFadd_infinity x' u') by auto.
    apply SFleb_infinity_r, SFadd_nonneg; assumption.
Qed.

Lemma SFadd_zero_r (x : spec_float) :
  nonneg x = true -> SF64add x (S754_zero false) = x.
Proof. destruct x as [[|]|[|]| |[|] m e]; try discriminate; reflexivity. Qed.

Lemma SFadd_increasing (x u : spec_float) :
  valid_binary x = true -> valid_binary u = true ->
  x = S754_nan \/ nonneg x = true -> u = S754_nan \/ nonneg u = true ->
  SF_below x (SF64add x u).
Proof.
  intros Vx Vu [->|Nx] Hu.
  { left. destruct u; reflexivity. }
  rewrite <- (SFadd_zero_r x Nx) at 1.
  apply SFadd_below; try assumption; try reflexivity.
  - apply SF_below_refl. now right.
  - apply SF_below_zero, Hu.
Qed.

(** ** The integer of [Math.round] *)

Lemma pow2_pos (n : Z) : 0 <= n -> 0 < 2 ^ n.
Proof. intros H. apply Z.pow_pos_nonneg; lia. Qed.

Lemma half_up_scaled (M K j : Z) :
  j <= K -> j <= 0 ->
  half_up M K = (2 * (M * 2 ^ (K - j)) + 2 ^ (- j)) / 2 ^ (- j + 1).
Proof.
  intros HK H0. unfold half_up.
  pose proof (pow2_pos (- j) ltac:(lia)) as Pj.
  destruct (Z.leb_spec 0 K) as [P|N].
  - replace (K - j) with (K + - j) by lia.
    rewrite !Z.pow_add_r by lia. change (2 ^ 1) with 2.
    replace (2 * (M * (2 ^ K * 2 ^ (- j))) + 2 ^ (- j))
      with ((1 + M * 2 ^ K * 2) * 2 ^ (- j)) by ring.
    rewrite (Z.mul_comm (2 ^ (- j)) 2).
    rewrite Z.div_mul_cancel_r by lia.
    rewrite Z.div_add by lia. reflexivity.
  - pose proof (pow2_pos (K - j) ltac:(lia)) as Pk.
    pose proof (pow2_pos (- K + 1) ltac:(lia)) as Pk1.
    replace (- j) with (- K + (K - j)) by lia.
    replace (- K + (K - j) + 1) with (- K + 1 + (K - j)) by lia.
    rewrite (Z.pow_add_r 2 (- K) (K - j)) by lia.
    rewrite (Z.pow_add_r 2 (- K + 1) (K - j)) by lia.
    replace (2 * (M * 2 ^ (K - j)) + 2 ^ (- K) * 2 ^ (K - j))
      with ((2 * M + 2 ^ (- K)) * 2 ^ (K - j)) by ring.
    rewrite Z.div_mul_cancel_r by lia. reflexivity.
Qed.

Lemma half_up_nonneg (M K : Z) : 0 <= M -> 0 <= half_up M K.
Proof.
  intros H. unfold half_up. destruct (Z.leb_spec 0 K).
  - pose proof (pow2_pos K ltac:(lia)). nia.
  - pose proof (pow2_pos (- K) ltac:(lia)).
    pose proof (pow2_pos (- K + 1) ltac:(lia)).
    apply Z.div_pos; lia.
Qed.

Lemma half_up_mono (M K M' K' : Z) :
  value_le M 1 K M' 1 K' -> half_up M K <= half_up M' K'.
Proof.
  intros H. set (j := Z.min (Z.min K K') 0).
  rewrite (half_up_scaled M K j), (half_up_scaled M' K' j) by lia.
  apply (value_le_scaled _ _ _ _ _ _ j) in H; [|lia|lia].
  rewrite !Z.mul_1_r in H.
  apply Z.div_le_mono; [apply pow2_pos; lia|lia].
Qed.

Lemma value_le_integers (a b : Z) : a <= b -> value_le a 1 0 b 1 0.
Proof. intros H. unfold value_le. cbn. lia. Qed.

(** ** The order on [float] *)

Lemma is_nan_SF (x : float) : is_nan x = false -> Prim2SF x <> S754_nan.
Proof.
  unfold is_nan. rewrite FloatAxioms.eqb_spec. intros H E.
  rewrite E in H. discriminate.
Qed.

Lemma below_refl (x : float) : in_range x -> below x x.
Proof. apply SF_below_refl. Qed.

Lemma below_in_range (x y : float) : below x y -> in_range y.
Proof. apply SF_below_range. Qed.

Lemma below_trans (x y z : float) : below x y -> below y z -> below x z.
Proof. apply SF_below_trans. Qed.

Lemma leb_below (x y : float) :
  in_range x -> in_range y -> (x <=? y)%float = true -> below x y.
Proof.
  rewrite leb_spec. unfold in_range, below, SF_below.
  intros [E|N] [E'|N'] L; auto.
  rewrite E in L. destruct (Prim2SF y); discriminate.
Qed.

Lemma below_leb (x y : float) :
  below x y -> is_nan y = false -> (x <=? y)%float = true.
Proof.
  intros [E|(_ & _ & L)] N.
  - now apply is_nan_SF in N.
  - rewrite leb_spec. exact L.
Qed.

Lemma positive_in_range (p : float) :
  (p <=? 0)%float = false -> in_range p.
Proof.
  rewrite leb_spec. unfold in_range.
  change (Prim2SF 0) with (S754_zero false).
  destruct (Prim2SF p) as [[|]|[|]| |[|] m e]; cbn; auto; discriminate.
Qed.

Lemma below_mul (x x' k : float) :
  finite_nonneg (Prim2SF k) = true ->
  below x x' -> below (x * k)%float (x' * k)%float.
Proof.
  intros F H. unfold below. rewrite !mul_spec.
  apply SFmul_below; auto using Prim2SF_valid.
Qed.

Lemma below_div (x x' k : float) :
  positive_finite k -> below x x' -> below (x / k)%float (x' / k)%float.
Proof.
  intros F H. destruct (positive_finite_SF k F) as (m & e & E).
  unfold below. rewrite !div_spec, E.
  apply SFdiv_below; auto using Prim2SF_valid.
Qed.

Lemma below_add (x x' u u' : float) :
  below x x' -> below u u' -> below (x + u)%float (x' + u')%float.
Proof.
  intros H H'. unfold below. rewrite !add_spec.
  apply SFadd_below; auto using Prim2SF_valid.
Qed.

Lemma below_add_r (x u : float) :
  in_range x -> in_range u -> below x (x + u)%float.
Proof.
  intros H H'. unfold below. rewrite add_spec.
  apply SFadd_increasing; auto using Prim2SF_valid.
Qed.

(** ** Integers and [Math.round] *)

Lemma float_of_Z_SF (n : Z) :
  0 <= n -> Prim2SF (float_of_Z n) = round_dyadic n 0.
Proof.
  intros H. unfold float_of_Z. apply Prim2SF_SF2Prim.
  apply round_dyadic_valid, H.
Qed.

Lemma float_of_Z_finite (n : Z) :
  0 <= n <= 2 ^ 53 -> finite_nonneg (Prim2SF (float_of_Z n)) = true.
Proof.
  intros [L U]. rewrite float_of_Z_SF by assumption.
  apply (SFleb_finite_nonneg _ (round_dyadic (2 ^ 53) 0)).
  - apply round_dyadic_nonneg, L.
  - vm_compute. reflexivity.
  - apply round_dyadic_mono; [lia|lia|]. apply value_le_integers, U.
Qed.

Lemma Math_round_SF (x : float) :
  finite_nonneg (Prim2SF x) = true ->
  Prim2SF (float_Math_round x)
  = round_dyadic (half_up (significand (Prim2SF x)) (exponent (Prim2SF x))) 0.
Proof.
  intros F. pose proof (Prim2SF_valid x) as V. unfold float_Math_round.
  destruct (Prim2SF x) as [[|]|[|]| |[|] m e] eqn:E; try discriminate.
  - rewrite E. vm_compute. reflexivity.
  - cbn [significand exponent]. unfold half_up.
    destruct (Z.leb_spec 0 e) as [P|N].
    + rewrite E.
      replace (round_dyadic (Z.pos m * 2 ^ e) 0)
        with (round_dyadic (Z.pos m * 2 ^ e) (e - e)) by (f_equal; lia).
      rewrite round_dyadic_rescale by lia.
      symmetry. apply round_dyadic_id, V.
    + fold (half_up (Z.pos m) e).
      assert (H : half_up (Z.pos m) e
                  = (2 * Z.pos m + 2 ^ (- e)) / 2 ^ (- e + 1)).
      { unfold half_up. destruct (Z.leb_spec 0 e); [lia|reflexivity]. }
      rewrite <- H.
      pose proof (half_up_nonneg (Z.pos m) e ltac:(lia)) as P.
      destruct (Z.eqb_spec (half_up (Z.pos m) e) 0) as [->|_].
      * reflexivity.
      * apply float_of_Z_SF, P.
Qed.

Lemma Math_round_nonneg (x : float) :
  nonneg (Prim2SF x) = true -> nonneg (Prim2SF (float_Math_round x)) = true.
Proof.
  intros N. destruct (nonneg_cases _ N) as [F|I].
  - rewrite Math_round_SF by assumption.
    apply round_dyadic_nonneg, half_up_nonneg, significand_nonneg.
  - unfold float_Math_round. rewrite I. rewrite I. reflexivity.
Qed.

Lemma below_Math_round (x x' : float) :
  below x x' -> below (float_Math_round x) (float_Math_round x').
Proof.
  intros [E | (N & N' & L)].
  { left. unfold float_Math_round. rewrite E. exact E. }
  right. split; [apply Math_round_nonneg, N|].
  split; [apply Math_round_nonneg, N'|].
  destruct (nonneg_cases _ N') as [F'|I'].
  - pose proof (SFleb_finite_nonneg _ _ N F' L) as F.
    rewrite !Math_round_SF by assumption.
    apply round_dyadic_mono;
      try (apply half_up_nonneg, significand_nonneg).
    apply value_le_integers, half_up_mono, order_value;
      auto using Prim2SF_valid.
  - replace (Prim2SF (float_Math_round x')) with (S754_infinity false).
    + apply SFleb_infinity_r, Math_round_nonneg, N.
    + unfold float_Math_round. rewrite I'. symmetry. exact I'.
Qed.
(* ================================================================== *)
(** * The calculation on JavaScript numbers                            *)
(* ================================================================== *)

#[local] Open Scope float_scope.

Ltac float_ops :=
  cbn [num_add num_sub num_mul num_div num_ltb num_leb num_of_Z Math_round
       float_JSNumber] in *.

(** ** Rate zero *)

Lemma zero_rates (r : float) :
  zero_valued r -> zero_valued (annualRate r) /\ zero_valued (monthlyRate r).
Proof.
  intros Z. destruct (zero_valued_cases r Z) as [-> | ->];
    split; reflexivity.
Qed.

Lemma yearlyInterest_zero (p ar : float) :
  positive_finite p -> zero_valued ar -> zero_valued (yearlyInterest p ar).
Proof.
  intros H Z. unfold yearlyInterest. float_ops.
  change (float_of_Z 100) with 100.
  apply zero_div_constant, mul_zero; assumption.
Qed.

Lemma zero_rate_years (p ar : float) :
  positive_finite p -> zero_valued ar ->
  forall turns year,
    amountAfter turns ar p = p
    /\ Forall (fun entry => zero_valued (interest entry))
         (yearEntries turns year ar p).
Proof.
  intros H Z. pose proof (yearlyInterest_zero p ar H Z) as Y.
  induction turns as [|turns IH]; intros year;
    cbn [amountAfter yearEntries]; [auto|].
  float_ops. rewrite add_zero by assumption.
  destruct (IH (year + 1)%Z). auto.
Qed.

Lemma partialInterest_zero (p mr : float) (d : Duration) :
  positive_finite p -> zero_valued mr ->
  (-128 <= months d <= 128)%Z -> (-128 <= days d <= 128)%Z ->
  zero_valued (partialInterest p mr d).
Proof.
  intros H Z M D.
  unfold partialInterest, monthsInterest, daysInterest, dailyInterestAmount,
    monthlyInterestAmount.
  float_ops. change (float_of_Z 100) with 100.
  change (float_of_Z BS_DAYS_PER_MONTH) with 30.
  pose proof (mul_zero p mr H Z) as Z1.
  apply zero_div_constant in Z1. destruct Z1 as [Z1 _].
  apply zero_add_zero.
  - now apply zero_mul_integer.
  - apply zero_mul_integer; [|assumption]. now apply zero_div_constant.
Qed.

Ltac float_differ := apply float_neq; vm_compute; discriminate.

(** ** The worked example *)

(** C1 (as the code computes it).  For principal 100000, rate 3, start
    2078-01-01 and end 2080-04-04 the duration is 2 years, 3 months and
    3 days (04 - 01 = 3 days, not 4).  The rate 3 is below 10, so it is
    monthly and the annual rate is 36: Year 1 has interest 36000 and ends
    at 136000, Year 2 has interest 48960 and ends at 184960.  The
    trailing entry is made of 5548.80 x 3 = 16646.40 for the months and
    184.96 x 3 = 554.88 for the days; their binary64 sum, the interest of
    the entry, is 17201.280000000002 (17201.28 to two decimals).  The
    final amount is 202161.28 and the total interest 102161.28. *)
Theorem worked_example :
  calculateNepaliInterest 100000 3 "2078-01-01" "2080-04-04"
  = Return initial_result
  /\ annualRate 3 = 36
  /\ monthlyInterestAmount 184960 (monthlyRate 3) = 5548.80
  /\ monthsInterest 184960 (monthlyRate 3) (timeDuration initial_result)
     = 16646.40
  /\ dailyInterestAmount 184960 (monthlyRate 3) = 184.96
  /\ daysInterest 184960 (monthlyRate 3) (timeDuration initial_result)
     = 554.88
  /\ partialInterest 184960 (monthlyRate 3) (timeDuration initial_result)
     = 17201.280000000002
  /\ round2 17201.280000000002 = 17201.28.
Proof. repeat split; vm_compute; reflexivity. Qed.

(** The figures of the in-app example, '2y 3m 4d ... 17,386.24 ...
    202,346.24', are those of an end date one day later. *)
Lemma worked_example_four_days :
  calculateNepaliInterest 100000 3 "2078-01-01" "2080-04-05"
  = Return
      {| finalAmount := 202346.24;
         totalInterest := 102346.24;
         timeDuration := {| years := 2; months := 3; days := 4 |};
         breakdown :=
           [ {| period := "Year 1"; startingPrincipal := 100000;
                interest := 36000; endingAmount := 136000 |};
             {| period := "Year 2"; startingPrincipal := 136000;
                interest := 48960; endingAmount := 184960 |};
             {| period := "3 months 4 days"; startingPrincipal := 184960;
                interest := 17386.24; endingAmount := 202346.24 |} ] |}.
Proof. vm_compute. reflexivity. Qed.

(** The figures C1 gives for this input (4 days, 202346.24, 102346.24)
    are not the ones returned. *)
Lemma worked_example_not_four_days :
  exists res,
    calculateNepaliInterest 100000 3 "2078-01-01" "2080-04-04" = Return res
    /\ timeDuration res <> {| years := 2; months := 3; days := 4 |}
    /\ finalAmount res <> 202346.24
    /\ totalInterest res <> 102346.24.
Proof.
  exists initial_result. split; [vm_compute; reflexivity|].
  split; [discriminate|]. split; float_differ.
Qed.

(** The same figures come out of the handler, from the strings the
    component starts with. *)
Lemma handleCalculate_initial_inputs
    (previous : option (CalculationResult float)) (message : string) :
  handleCalculate
    {| inputs := initial_inputs; result := previous; error := message |}
  = {| inputs := initial_inputs; result := Some initial_result; error := "" |}.
Proof. vm_compute. reflexivity. Qed.

(** ** Rate interpretation *)

Lemma monthly_below_10 (r : float) :
  (r <? 10) = true -> monthlyRate r = r /\ annualRate r = r * 12.
Proof.
  intros H. unfold monthlyRate, annualRate, isMonthlyRate. float_ops.
  change (float_of_Z 10) with 10. rewrite H. split; reflexivity.
Qed.

Lemma annual_from_10 (r : float) :
  (10 <=? r) = true -> monthlyRate r = r / 12 /\ annualRate r = r.
Proof.
  intros H. apply leb_ltb_false in H.
  unfold monthlyRate, annualRate, isMonthlyRate. float_ops.
  change (float_of_Z 10) with 10. rewrite H. split; reflexivity.
Qed.

(** C2.  In a call that returns, a rate below 10 is the monthly rate and
    the annual rate is rate x 12; a rate of 10 or more is the annual rate
    and the monthly rate is rate / 12.  These are the rates of the year
    entries (interest = starting principal x annual rate / 100) and of
    the trailing entry.  The boundary is strict: 9.999 gives the annual
    rate 119.988 and 10 gives exactly 10. *)
Theorem rate_interpretation (principal r : float)
    (startDate endDate : string) (res : CalculationResult float) :
  datePattern_test startDate = true ->
  datePattern_test endDate = true ->
  calculateNepaliInterest principal r startDate endDate = Return res ->
  ((r <? 10) = true ->
   monthlyRate r = r /\ annualRate r = r * 12
   /\ rates_used r (r * 12) res)
  /\ ((10 <=? r) = true ->
      monthlyRate r = r / 12 /\ annualRate r = r
      /\ rates_used (r / 12) r res)
  /\ annualRate 9.999 = 119.988
  /\ annualRate 10 = 10.
Proof.
  intros _ _ H. apply rates_used_returns in H.
  split; [|split; [|split; reflexivity]].
  - intros B. destruct (monthly_below_10 r B) as [M A].
    rewrite M, A in H. auto.
  - intros B. destruct (annual_from_10 r B) as [M A].
    rewrite M, A in H. auto.
Qed.

Lemma rate_interpretation_witness :
  monthlyRate 3 = 3 /\ annualRate 3 = 3 * 12
  /\ rates_used 3 (3 * 12) initial_result.
Proof.
  refine (proj1 (rate_interpretation 100000 3 "2078-01-01" "2080-04-04"
                   initial_result eq_refl eq_refl _) eq_refl).
  vm_compute. reflexivity.
Defined.

(** ** Validation inside [calculateNepaliInterest] *)

(** C7.  [calculateNepaliInterest] throws 'Principal must be greater
    than 0' exactly when principal <= 0; for a principal above 0 it
    throws 'Interest rate cannot be negative' exactly when rate < 0; and
    for a principal above 0, a rate of 0 or more and well-formed dates
    whose end does not precede the start, it returns a result. *)
Theorem input_validation (principal rate : float) (startDate endDate : string) :
  (throws (calculateNepaliInterest principal rate startDate endDate)
     principal_message
   <-> (principal <=? 0) = true)
  /\ ((0 <? principal) = true ->
      (throws (calculateNepaliInterest principal rate startDate endDate)
         rate_message
       <-> (rate <? 0) = true))
  /\ ((0 <? principal) = true -> (0 <=? rate) = true ->
      datePattern_test startDate = true ->
      datePattern_test endDate = true ->
      ~ BSDate_lt (parseBSDate endDate) (parseBSDate startDate) ->
      returns (calculateNepaliInterest principal rate startDate endDate)).
Proof.
  unfold throws, returns, calculateNepaliInterest. float_ops.
  change (float_of_Z 0) with 0.
  split; [|split].
  - destruct (principal <=? 0); [tauto|].
    split; [|discriminate].
    destruct (rate <? 0); [discriminate|].
    destruct (calculateBSDateDifference startDate endDate) as [d|m] eqn:E;
      cbn; [destruct (accrue principal rate d); discriminate|].
    apply dateDifference_throws in E. destruct E as [-> _]. discriminate.
  - intros P. rewrite (positive_not_le_0 _ P).
    destruct (rate <? 0); [tauto|].
    split; [|discriminate].
    destruct (calculateBSDateDifference startDate endDate) as [d|m] eqn:E;
      cbn; [destruct (accrue principal rate d); discriminate|].
    apply dateDifference_throws in E. destruct E as [-> _]. discriminate.
  - intros P R _ _ O.
    rewrite (positive_not_le_0 _ P), (leb_ltb_false _ _ R).
    destruct (calculateBSDateDifference startDate endDate) as [d|m] eqn:E;
      cbn; [destruct (accrue principal rate d); eauto|].
    apply dateDifference_throws in E. destruct E as [_ E].
    apply end_before_start_lt in E. contradiction.
Qed.

Lemma input_validation_witness :
  returns (calculateNepaliInterest 100000 3 "2078-01-01" "2080-04-04").
Proof.
  apply (proj2 (proj2 (input_validation 100000 3 "2078-01-01" "2080-04-04")));
    try reflexivity.
  unfold BSDate_lt. cbn. lia.
Defined.

(** ** The ledger *)

(** C9.  In a call that returns, the ledger holds exactly [years]
    entries labelled "Year 1", ..., "Year N" in order, followed by one
    trailing entry exactly when months > 0 or days > 0; every entry ends
    at its starting principal plus its interest, the first starts at the
    principal and each later one where the one before it ended; and the
    final amount is the last ending amount (the principal for an empty
    ledger) rounded to two decimals. *)
Theorem breakdown_consistent (principal rate : float)
    (startDate endDate : string) (res : CalculationResult float) :
  datePattern_test startDate = true ->
  datePattern_test endDate = true ->
  calculateNepaliInterest principal rate startDate endDate = Return res ->
  consistent_ledger principal res.
Proof. intros _ _. apply ledger_consistent. Qed.

Lemma breakdown_consistent_witness :
  consistent_ledger 100000 initial_result.
Proof.
  apply (breakdown_consistent 100000 3 "2078-01-01" "2080-04-04");
    vm_compute; reflexivity.
Defined.

(** ** Equal dates *)

(** C6 (as the code computes it).  For a positive finite principal, a
    rate of 0 or more and a start date equal to the end date, the
    duration is (0, 0, 0), the ledger is empty, the total interest is 0,
    and the final amount is the principal rounded to two decimals,
    [Math.round(principal * 100) / 100]. *)
Theorem same_date_result (principal rate : float) (date : string) :
  positive_finite principal -> (0 <=? rate) = true ->
  datePattern_test date = true ->
  calculateNepaliInterest principal rate date date
  = Return {| finalAmount := round2 principal;
              totalInterest := 0;
              timeDuration := {| years := 0; months := 0; days := 0 |};
              breakdown := [] |}.
Proof.
  intros P R _.
  rewrite (calculateNepaliInterest_value principal rate date date
             {| years := 0; months := 0; days := 0 |}).
  - cbn [accrue yearLoop partialStep hasPartialPeriod years months days
         Z.to_nat Z.gtb Z.compare orb fst snd].
    float_ops. rewrite sub_diag by assumption. reflexivity.
  - apply positive_not_le_0, P.
  - apply leb_ltb_false, R.
  - apply dateDifference_same.
Qed.

Lemma same_date_result_witness :
  calculateNepaliInterest 100000 3 "2078-01-01" "2078-01-01"
  = Return {| finalAmount := round2 100000;
              totalInterest := 0;
              timeDuration := {| years := 0; months := 0; days := 0 |};
              breakdown := [] |}.
Proof.
  apply same_date_result; [split|..]; reflexivity.
Defined.

(** A principal with more than two decimals is not returned as the
    final amount: 0.001 comes back as 0. *)
Lemma same_date_final_amount_rounded :
  positive_finite 0.001
  /\ exists res,
       calculateNepaliInterest 0.001 3 "2078-01-01" "2078-01-01" = Return res
       /\ breakdown res = []
       /\ finalAmount res = 0
       /\ finalAmount res <> 0.001.
Proof.
  split; [split; reflexivity|].
  eexists. split; [vm_compute; reflexivity|]. cbn.
  repeat split. float_differ.
Qed.

(** ** Rate zero *)

(** C10.  For rate 0 (either zero), a positive finite principal and
    well-formed dates whose end does not precede the start, the call
    returns: rate 0 is accepted.  Every ledger entry has interest 0, the
    total interest is 0 and the final amount is
    [Math.round(principal * 100) / 100], the product and the quotient
    being binary64 operations. *)
Theorem zero_rate_identity (principal rate : float)
    (startDate endDate : string) :
  positive_finite principal -> zero_valued rate ->
  datePattern_test startDate = true ->
  datePattern_test endDate = true ->
  ~ BSDate_lt (parseBSDate endDate) (parseBSDate startDate) ->
  exists res,
    calculateNepaliInterest principal rate startDate endDate = Return res
    /\ totalInterest res = 0
    /\ Forall (fun entry => zero_valued (interest entry)) (breakdown res)
    /\ finalAmount res = float_Math_round (principal * 100) / 100.
Proof.
  intros P Z Ws We O. destruct (zero_rates rate Z) as [Za Zm].
  destruct (calculateBSDateDifference startDate endDate) as [d|m] eqn:D.
  2:{ apply dateDifference_throws in D. destruct D as [_ D].
      apply end_before_start_lt in D. contradiction. }
  pose proof (duration_bounds _ _ _ Ws We D) as [Bm Bd].
  eexists. split.
  { apply (calculateNepaliInterest_value principal rate startDate endDate d);
      [apply positive_not_le_0, P | apply zero_not_negative, Z | exact D]. }
  cbn [totalInterest breakdown finalAmount].
  rewrite accrue_spec. cbn [fst snd].
  destruct (zero_rate_years principal (annualRate rate) P Za
              (Z.to_nat (years d)) 1) as [A F].
  rewrite A.
  assert (C : closingAmount principal
                (trailingEntries (monthlyRate rate) d principal) = principal
              /\ Forall (fun entry => zero_valued (interest entry))
                   (trailingEntries (monthlyRate rate) d principal)).
  { unfold trailingEntries.
    destruct (hasPartialPeriod d); [|cbn; auto].
    pose proof (partialInterest_zero principal (monthlyRate rate) d
                  P Zm Bm Bd) as I.
    unfold closingAmount. cbn [fold_left endingAmount]. float_ops.
    rewrite add_zero by assumption. repeat constructor. exact I. }
  destruct C as [C1 C2]. rewrite C1. float_ops.
  rewrite sub_diag by assumption.
  split; [reflexivity|]. split; [|reflexivity].
  apply Forall_app. auto.
Qed.

Lemma zero_rate_identity_witness :
  exists res,
    calculateNepaliInterest 100000 0 "2078-01-01" "2080-04-04" = Return res
    /\ totalInterest res = 0
    /\ Forall (fun entry => zero_valued (interest entry)) (breakdown res)
    /\ finalAmount res = float_Math_round (100000 * 100) / 100.
Proof.
  apply zero_rate_identity; try (split; reflexivity); try reflexivity.
  unfold BSDate_lt. cbn. lia.
Defined.

(** At rate 0 the final amount is not always the principal rounded to
    two decimal places.  The double written 1.045 lies below 1.045, so
    the hundredth nearest to it is 1.04; its product with 100 rounds up
    to 104.5 and the final amount is 1.05.  The double written 1e308 is
    a whole number; its product with 100 overflows and the final amount
    is [Infinity]. *)
Lemma zero_rate_final_amount_not_nearest_hundredth :
  (positive_finite 1.045
   /\ nearest_hundredths 1.045 = Some 104%Z
   /\ exists res,
        calculateNepaliInterest 1.045 0 "2078-01-01" "2079-01-01"
        = Return res
        /\ totalInterest res = 0
        /\ finalAmount res = 1.05
        /\ finalAmount res <> 1.04)
  /\ (positive_finite 1e308
      /\ exists res,
           calculateNepaliInterest 1e308 0 "2078-01-01" "2079-01-01"
           = Return res
           /\ totalInterest res = 0
           /\ finalAmount res = infinity
           /\ finalAmount res <> 1e308).
Proof.
  split.
  - split; [split; reflexivity|]. split; [vm_compute; reflexivity|].
    eexists. split; [vm_compute; reflexivity|]. cbn.
    repeat split. float_differ.
  - split; [split; reflexivity|].
    eexists. split; [vm_compute; reflexivity|]. cbn.
    repeat split. float_differ.
Qed.

(** The code does not ask the principal to be finite: the string
    "Infinity" passes the checks of [handleCalculate], and at rate 0 its
    interest is not 0 but [NaN]. *)
Lemma infinite_principal_accepted :
  exists res,
    tryCalculate {| principal := "Infinity"; interestRate := "0";
                    startDate := "2078-01-01"; endDate := "2079-01-01" |}
    = Return res
    /\ map interest (breakdown res) = [nan]
    /\ totalInterest res = nan.
Proof. eexists. split; [vm_compute; reflexivity|]. split; reflexivity. Qed.

(** ** The handler *)

Lemma tryCalculate_fails (inp : CalculatorInputs) :
  fails_validation inp ->
  exists message, tryCalculate inp = Throw message /\ message <> "".
Proof.
  unfold fails_validation, invalid_principal, invalid_rate, bad_date_format,
    ordering_violation, tryCalculate. cbv zeta.
  intros H.
  destruct (isNaN (parseFloat (principal inp))
            || (parseFloat (principal inp) <=? 0)) eqn:P;
    [eexists; split; [reflexivity|discriminate]|].
  apply orb_false_iff in P. destruct P as [P1 P2].
  destruct (isNaN (parseFloat (interestRate inp))
            || (parseFloat (interestRate inp) <? 0)) eqn:R;
    [eexists; split; [reflexivity|discriminate]|].
  apply orb_false_iff in R. destruct R as [R1 R2].
  destruct (negb (datePattern_test (startDate inp))
            || negb (datePattern_test (endDate inp))) eqn:F;
    [eexists; split; [reflexivity|discriminate]|].
  apply orb_false_iff in F. destruct F as [F1 F2].
  apply negb_false_iff in F1, F2.
  destruct H as [[H|H]|[[H|H]|[[H|H]|H]]]; try congruence.
  apply end_before_start_lt in H.
  exists ordering_message. split; [|discriminate].
  unfold calculateNepaliInterest. float_ops.
  change (float_of_Z 0) with 0. rewrite P2, R2.
  unfold calculateBSDateDifference, dateDifference. cbv zeta.
  rewrite H. reflexivity.
Qed.

(** The checks of [handleCalculate] run in the order principal, rate,
    date format, each with its own message; inputs that pass them reach
    [calculateNepaliInterest] with the parsed numbers.  So principal "0",
    "-5" or "abc" gives the principal message, rate "-1" the rate message
    and the date "2080/01/01" the date-format message. *)
Theorem handler_validation_order (inp : CalculatorInputs) :
  (invalid_principal inp -> tryCalculate inp = Throw ui_principal_message)
  /\ (~ invalid_principal inp -> invalid_rate inp ->
      tryCalculate inp = Throw ui_rate_message)
  /\ (~ invalid_principal inp -> ~ invalid_rate inp ->
      bad_date_format inp -> tryCalculate inp = Throw ui_date_message)
  /\ (~ invalid_principal inp -> ~ invalid_rate inp ->
      ~ bad_date_format inp ->
      tryCalculate inp
      = calculateNepaliInterest (parseFloat (principal inp))
          (parseFloat (interestRate inp)) (startDate inp) (endDate inp)).
Proof.
  unfold invalid_principal, invalid_rate, bad_date_format, tryCalculate.
  cbv zeta.
  destruct (isNaN (parseFloat (principal inp)));
    destruct (parseFloat (principal inp) <=? 0);
    destruct (isNaN (parseFloat (interestRate inp)));
    destruct (parseFloat (interestRate inp) <? 0);
    destruct (datePattern_test (startDate inp));
    destruct (datePattern_test (endDate inp)); cbn;
    repeat split; intros; try reflexivity; exfalso; intuition congruence.
Qed.

Lemma handler_validation_order_witness :
  tryCalculate {| principal := "0"; interestRate := "3";
                  startDate := "2078-01-01"; endDate := "2080-04-04" |}
  = Throw ui_principal_message.
Proof.
  apply (proj1 (handler_validation_order
                  {| principal := "0"; interestRate := "3";
                     startDate := "2078-01-01"; endDate := "2080-04-04" |})).
  right. reflexivity.
Defined.

Lemma handler_rejections :
  let attempt p r s :=
    tryCalculate {| principal := p; interestRate := r;
                    startDate := s; endDate := "2080-04-04" |} in
  attempt "0" "3" "2078-01-01" = Throw ui_principal_message
  /\ attempt "-5" "3" "2078-01-01" = Throw ui_principal_message
  /\ attempt "abc" "3" "2078-01-01" = Throw ui_principal_message
  /\ attempt "100000" "-1" "2078-01-01" = Throw ui_rate_message
  /\ attempt "100000" "3" "2080/01/01" = Throw ui_date_message
  /\ attempt "100000" "3" "2081-01-01" = Throw ordering_message.
Proof. cbv zeta. repeat split; vm_compute; reflexivity. Qed.

(** C3 (as the code behaves).  A call of [handleCalculate] whose inputs
    fail validation (invalid principal, invalid rate, bad date format or
    end date before start date) stores the error message and sets the
    stored result to [null]: a result shown before is cleared, not
    kept. *)
Theorem failed_attempt_clears_result (st : ComponentState) :
  fails_validation (inputs st) ->
  exists message,
    message <> ""
    /\ handleCalculate st
       = {| inputs := inputs st; result := None; error := message |}.
Proof.
  intros H. destruct (tryCalculate_fails _ H) as (message & T & N).
  exists message. split; [exact N|].
  unfold handleCalculate. cbn [setError inputs]. rewrite T. reflexivity.
Qed.

Lemma failed_attempt_clears_result_witness :
  exists message,
    message <> ""
    /\ handleCalculate
         {| inputs := {| principal := "0"; interestRate := "3";
                         startDate := "2078-01-01"; endDate := "2080-04-04" |};
            result := Some initial_result; error := "" |}
       = {| inputs := {| principal := "0"; interestRate := "3";
                         startDate := "2078-01-01"; endDate := "2080-04-04" |};
            result := None; error := message |}.
Proof.
  apply (failed_attempt_clears_result
           {| inputs := {| principal := "0"; interestRate := "3";
                           startDate := "2078-01-01";
                           endDate := "2080-04-04" |};
              result := Some initial_result; error := "" |}).
  left. right. reflexivity.
Defined.

(** After a successful calculation, an attempt with principal "0" fails
    validation and leaves no result. *)
Lemma failed_attempt_loses_previous_result :
  let before :=
    handleCalculate
      {| inputs := initial_inputs; result := None; error := "" |} in
  let attempt :=
    {| inputs := {| principal := "0"; interestRate := "3";
                    startDate := "2078-01-01"; endDate := "2080-04-04" |};
       result := result before; error := error before |} in
  result before = Some initial_result
  /\ fails_validation (inputs attempt)
  /\ result (handleCalculate attempt) = None
  /\ result (handleCalculate attempt) <> result attempt
  /\ error (handleCalculate attempt) = ui_principal_message.
Proof.
  cbv zeta. split; [vm_compute; reflexivity|].
  split; [left; right; reflexivity|].
  split; [vm_compute; reflexivity|].
  split; [vm_compute; discriminate | vm_compute; reflexivity].
Qed.

(* ================================================================== *)
(** * One more year                                                    *)
(* ================================================================== *)

(** ** The rates are finite *)

Lemma below_finite (x y : float) :
  below x y -> finite_nonneg (Prim2SF y) = true ->
  finite_nonneg (Prim2SF x) = true.
Proof.
  intros [E|(N & _ & L)] F.
  - rewrite E in F. discriminate.
  - exact (SFleb_finite_nonneg _ _ N F L).
Qed.

Lemma positive_finite_nonneg (x : float) :
  positive_finite x -> finite_nonneg (Prim2SF x) = true.
Proof.
  intros H. destruct (positive_finite_SF x H) as (m & e & ->). reflexivity.
Qed.

Lemma ltb_below (x y : float) :
  positive_finite x -> (x <? y) = true -> below x y.
Proof.
  intros H. destruct (positive_finite_SF x H) as (m & e & E).
  rewrite ltb_spec. unfold below, SF_below, SFltb, SFleb. rewrite E.
  destruct (Prim2SF y) as [[|]|[|]| |[|] m' e']; cbn; try discriminate;
    auto.
  destruct (e ?= e')%Z; try discriminate; auto.
  destruct (Pos.compare_cont Eq m m'); try discriminate; auto.
Qed.

Lemma finite_below_max (x : float) :
  positive_finite x -> below x 0x1.fffffffffffffp+1023.
Proof.
  intros H. destruct (positive_finite_SF x H) as (m & e & E).
  pose proof (Prim2SF_valid x) as V. rewrite E in V.
  destruct (bounded_spec m e V) as (_ & R & U & _).
  right. rewrite E. repeat split.
  change (Prim2SF 0x1.fffffffffffffp+1023)
    with (S754_finite false 9007199254740991 971).
  apply SFleb_finite. change (2 ^ 53)%Z with 9007199254740992%Z in U. lia.
Qed.

Lemma annualRate_finite (r : float) :
  positive_finite r -> finite_nonneg (Prim2SF (annualRate r)) = true.
Proof.
  intros H. unfold annualRate, isMonthlyRate. float_ops.
  change (float_of_Z 10) with 10. change (float_of_Z 12) with 12.
  destruct (r <? 10) eqn:L.
  - apply (below_finite _ (10 * 12)); [|reflexivity].
    apply below_mul; [reflexivity|]. now apply ltb_below.
  - now apply positive_finite_nonneg.
Qed.

Lemma monthlyRate_finite (r : float) :
  positive_finite r -> finite_nonneg (Prim2SF (monthlyRate r)) = true.
Proof.
  intros H. unfold monthlyRate, isMonthlyRate. float_ops.
  change (float_of_Z 10) with 10. change (float_of_Z 12) with 12.
  destruct (r <? 10) eqn:L.
  - now apply positive_finite_nonneg.
  - apply (below_finite _ (0x1.fffffffffffffp+1023 / 12)); [|reflexivity].
    apply below_div; [split; reflexivity|]. now apply finite_below_max.
Qed.

(** ** Every step of the calculation keeps the order *)

Section OneMoreYear.
Variables ar mr : float.
Hypothesis ar_finite : finite_nonneg (Prim2SF ar) = true.
Hypothesis mr_finite : finite_nonneg (Prim2SF mr) = true.

Lemma monthlyInterestAmount_below (c c' k : float) :
  finite_nonneg (Prim2SF k) = true ->
  below c c' -> below (c * k / 100) (c' * k / 100).
Proof.
  intros F H. apply below_div; [split; reflexivity|]. now apply below_mul.
Qed.

Lemma yearlyInterest_below (c c' : float) :
  below c c' -> below (yearlyInterest c ar) (yearlyInterest c' ar).
Proof.
  intros H. unfold yearlyInterest. float_ops.
  change (float_of_Z 100) with 100.
  now apply monthlyInterestAmount_below.
Qed.

Lemma year_added (c : float) :
  in_range c -> below c (c + yearlyInterest c ar).
Proof.
  intros H. apply below_add_r; [exact H|].
  apply (below_in_range (yearlyInterest c ar)).
  apply yearlyInterest_below, below_refl, H.
Qed.

Lemma amountAfter_in_range (turns : nat) :
  forall c, in_range c -> in_range (amountAfter turns ar c).
Proof.
  induction turns as [|turns IH]; intros c H; cbn [amountAfter];
    [exact H|].
  apply IH. float_ops. exact (below_in_range _ _ (year_added c H)).
Qed.

Lemma amountAfter_one_more (turns : nat) (c : float) :
  in_range c -> below (amountAfter turns ar c) (amountAfter (S turns) ar c).
Proof.
  intros H. rewrite amountAfter_succ. float_ops.
  apply year_added, amountAfter_in_range, H.
Qed.

Lemma amountAfter_below (turns : nat) :
  forall c c', below c c' ->
               below (amountAfter turns ar c) (amountAfter turns ar c').
Proof.
  induction turns as [|turns IH]; intros c c' H; cbn [amountAfter];
    [exact H|].
  apply IH. float_ops. apply below_add; [exact H|].
  now apply yearlyInterest_below.
Qed.

Lemma amountAfter_grows (turns : nat) (c : float) :
  in_range c -> below c (amountAfter turns ar c).
Proof.
  intros H. induction turns as [|turns IH]; [now apply below_refl|].
  exact (below_trans _ _ _ IH (amountAfter_one_more turns c H)).
Qed.

Lemma partialInterest_below (c c' : float) (dateDiff : Duration) :
  (0 <= months dateDiff <= 2 ^ 53)%Z -> (0 <= days dateDiff <= 2 ^ 53)%Z ->
  below c c' ->
  below (partialInterest c mr dateDiff) (partialInterest c' mr dateDiff).
Proof.
  intros M D H.
  unfold partialInterest, monthsInterest, daysInterest, dailyInterestAmount,
    monthlyInterestAmount, BS_DAYS_PER_MONTH.
  float_ops. change (float_of_Z 100) with 100. change (float_of_Z 30) with 30.
  apply below_add; apply below_mul; try (apply float_of_Z_finite; assumption).
  - now apply monthlyInterestAmount_below.
  - apply below_div; [split; reflexivity|].
    now apply monthlyInterestAmount_below.
Qed.

Lemma closingAmount_below (c c' : float) (shorter longer : Duration) :
  months longer = months shorter -> days longer = days shorter ->
  (0 <= months shorter <= 2 ^ 53)%Z -> (0 <= days shorter <= 2 ^ 53)%Z ->
  below c c' ->
  below (closingAmount c (trailingEntries mr shorter c))
        (closingAmount c' (trailingEntries mr longer c')).
Proof.
  intros Em Ed M D H.
  unfold trailingEntries, hasPartialPeriod, partialInterest, monthsInterest,
    daysInterest.
  rewrite Em, Ed.
  destruct ((months shorter >? 0)%Z || (days shorter >? 0)%Z);
    unfold closingAmount; cbn [fold_left endingAmount]; [|exact H].
  float_ops. apply below_add; [exact H|].
  now apply partialInterest_below.
Qed.

Lemma closingAmount_grows (c : float) (dateDiff : Duration) :
  (0 <= months dateDiff <= 2 ^ 53)%Z -> (0 <= days dateDiff <= 2 ^ 53)%Z ->
  in_range c ->
  below c (closingAmount c (trailingEntries mr dateDiff c)).
Proof.
  intros M D H. unfold trailingEntries.
  destruct (hasPartialPeriod dateDiff);
    unfold closingAmount; cbn [fold_left endingAmount];
    [|now apply below_refl].
  float_ops. apply below_add_r; [exact H|].
  apply (below_in_range (partialInterest c mr dateDiff)).
  apply partialInterest_below; try assumption. now apply below_refl.
Qed.

End OneMoreYear.

Lemma round2_below (x x' : float) :
  below x x' -> below (round2 x) (round2 x').
Proof.
  intros H. unfold round2. float_ops. change (float_of_Z 100) with 100.
  apply below_div; [split; reflexivity|].
  apply below_Math_round, below_mul; [reflexivity|exact H].
Qed.

(** C8 (what holds).  For a finite rate above 0 and two calculations on
    the same principal whose durations differ by one full year, with
    months and days of 0 or more: the final amount of the longer one is
    greater than or equal to the final amount of the shorter one,
    unless the longer one has overflowed and its final amount is [NaN].
    The principal is above 0 because both calls return. *)
Theorem one_more_year (principal rate : float)
    (startDate endDate startDate' endDate' : string)
    (shorter longer : CalculationResult float) :
  positive_finite rate ->
  calculateNepaliInterest principal rate startDate endDate = Return shorter ->
  calculateNepaliInterest principal rate startDate' endDate'
  = Return longer ->
  years (timeDuration longer) = (years (timeDuration shorter) + 1)%Z ->
  months (timeDuration longer) = months (timeDuration shorter) ->
  days (timeDuration longer) = days (timeDuration shorter) ->
  (0 <= months (timeDuration shorter) <= 2 ^ 53)%Z ->
  (0 <= days (timeDuration shorter) <= 2 ^ 53)%Z ->
  isNaN (finalAmount longer) = false ->
  (finalAmount shorter <=? finalAmount longer) = true.
Proof.
  intros R S L Ey Em Ed M D N.
  apply calculateNepaliInterest_returns in S, L.
  destruct S as (P & _ & d & Dd & ->). destruct L as (_ & _ & d' & _ & ->).
  cbn [timeDuration finalAmount] in *.
  apply dateDifference_returns in Dd. destruct Dd as (_ & Y & _).
  float_ops. change (float_of_Z 0) with 0 in P.
  apply below_leb; [|exact N].
  apply round2_below. rewrite !accrue_spec. cbn [fst].
  rewrite Ey. replace (Z.to_nat (years d + 1)) with (S (Z.to_nat (years d)))
    by lia.
  apply closingAmount_below; try assumption.
  - now apply monthlyRate_finite.
  - apply amountAfter_one_more;
      [now apply annualRate_finite | now apply positive_in_range].
Qed.

Lemma one_more_year_witness :
  exists shorter longer,
    calculateNepaliInterest 100000 3 "2078-01-01" "2080-04-04" = Return shorter
    /\ calculateNepaliInterest 100000 3 "2078-01-01" "2081-04-04"
       = Return longer
    /\ (finalAmount shorter <=? finalAmount longer) = true.
Proof.
  do 2 eexists. split; [vm_compute; reflexivity|].
  split; [vm_compute; reflexivity|].
  apply (one_more_year 100000 3 "2078-01-01" "2080-04-04"
           "2078-01-01" "2081-04-04");
    try (vm_compute; reflexivity); try (split; reflexivity);
    cbn; lia.
Defined.

(** The final amount is not always greater with one more year.  With
    principal 1 and rate 0.0001 the first year adds 0.000012 and both
    calculations return 1.  With principal 5e305 and rate 1000 the first
    year overflows to [Infinity], the month that follows turns the final
    amount of the longer calculation into [NaN], and [NaN] is not above
    or equal to the finite amount of the shorter one. *)
Lemma one_more_year_not_greater :
  (exists shorter longer,
     calculateNepaliInterest 1 0.0001 "2078-01-01" "2078-01-01"
     = Return shorter
     /\ calculateNepaliInterest 1 0.0001 "2078-01-01" "2079-01-01"
        = Return longer
     /\ years (timeDuration longer) = (years (timeDuration shorter) + 1)%Z
     /\ months (timeDuration longer) = months (timeDuration shorter)
     /\ days (timeDuration longer) = days (timeDuration shorter)
     /\ finalAmount shorter = 1
     /\ finalAmount longer = 1
     /\ (finalAmount shorter <? finalAmount longer) = false)
  /\ (exists shorter longer,
        calculateNepaliInterest 5e305 1000 "2078-01-01" "2078-02-01"
        = Return shorter
        /\ calculateNepaliInterest 5e305 1000 "2078-01-01" "2079-02-01"
           = Return longer
        /\ years (timeDuration longer) = (years (timeDuration shorter) + 1)%Z
        /\ months (timeDuration longer) = months (timeDuration shorter)
        /\ days (timeDuration longer) = days (timeDuration shorter)
        /\ is_finite (finalAmount shorter) = true
        /\ finalAmount longer = nan
        /\ (finalAmount shorter <=? finalAmount longer) = false).
Proof.
  split; do 2 eexists;
    (split; [vm_compute; reflexivity|]);
    (split; [vm_compute; reflexivity|]); cbn; repeat split.
Qed.

(** Before any rounding to two decimals, binary64 already absorbs an
    interest below half a unit in the last place: at principal 1e17 and
    rate 1e-18 the first year's interest, 0.012, leaves the principal as
    it was. *)
Lemma one_more_year_absorbed :
  fst (accrue 1e17 1e-18 {| years := 1; months := 0; days := 0 |})
  = fst (accrue 1e17 1e-18 {| years := 0; months := 0; days := 0 |}).
Proof. vm_compute. reflexivity. Qed.

#[local] Close Scope float_scope.

(* ================================================================== *)
(** * Further properties of the date utilities                         *)
(* ================================================================== *)

#[local] Open Scope Z_scope.

Lemma dateDifference_day_count (start end_ : BSDate) (d : Duration) :
  dateDifference start end_ = Return d ->
  durationDays d = dayNumber end_ - dayNumber start.
Proof.
  intros H. apply dateDifference_returns in H. destruct H as (_ & _ & H).
  unfold durationDays, dayNumber. lia.
Qed.

(** A returned duration spans, in the fixed radix of 12 months of 30
    days, exactly the days between the two dates: borrowing moves days
    between the fields and loses none.  This holds for any integer
    fields, also out-of-range ones. *)
Theorem duration_day_count (start end_ : BSDate) (d : Duration) :
  dateDifference start end_ = Return d ->
  durationDays d = dayNumber end_ - dayNumber start.
Proof. apply dateDifference_day_count. Qed.

Lemma duration_day_count_witness :
  durationDays {| years := 0; months := 0; days := 1 |}
  = dayNumber {| year := 2081; month := 1; day := 1 |}
    - dayNumber {| year := 2080; month := 12; day := 30 |}.
Proof.
  apply (duration_day_count {| year := 2080; month := 12; day := 30 |}
           {| year := 2081; month := 1; day := 1 |}).
  reflexivity.
Defined.

Lemma dateDifference_valid_fields (start end_ : BSDate) :
  valid_BSDate start -> valid_BSDate end_ -> ~ BSDate_lt end_ start ->
  exists d, dateDifference start end_ = Return d
            /\ 0 <= years d /\ 0 <= months d <= 11 /\ 0 <= days d <= 29.
Proof.
  unfold valid_BSDate. intros Vs Ve O.
  destruct (dateDifference start end_) as [d|m] eqn:E.
  - exists d. split; [reflexivity|].
    pose proof (dateDifference_returns _ _ _ E) as (_ & Y & _).
    split; [exact Y|].
    revert E. unfold dateDifference.
    destruct (end_before_start start end_); [discriminate|].
    unfold BS_DAYS_PER_MONTH, BS_MONTHS_PER_YEAR.
    destruct (day end_ - day start <? 0) eqn:Ed;
      [apply Z.ltb_lt in Ed | apply Z.ltb_ge in Ed]; cbn;
      (destruct (_ <? 0) eqn:Em;
       [apply Z.ltb_lt in Em | apply Z.ltb_ge in Em]);
      intros [= <-]; cbn; lia.
  - apply dateDifference_throws in E. destruct E as [_ E].
    apply end_before_start_lt in E. contradiction.
Qed.

Lemma valid_order_by_day_number (a b : BSDate) :
  valid_BSDate a -> valid_BSDate b ->
  (BSDate_lt a b <-> dayNumber a < dayNumber b).
Proof. unfold valid_BSDate, BSDate_lt, dayNumber. lia. Qed.

(** For valid dates (month 1-12, day 1-30) the call throws exactly when
    the end date has the smaller day number, and otherwise the duration
    is the day count [T] written in the radix: [T / 360] years,
    [T mod 360 / 30] months and [T mod 30] days. *)
Theorem valid_dates_duration (start end_ : BSDate) :
  valid_BSDate start -> valid_BSDate end_ ->
  let T := dayNumber end_ - dayNumber start in
  (throws (dateDifference start end_) ordering_message <-> T < 0)
  /\ (0 <= T ->
      dateDifference start end_
      = Return {| years := T / 360; months := T mod 360 / 30;
                  days := T mod 30 |}).
Proof.
  intros Vs Ve T.
  pose proof (valid_order_by_day_number end_ start Ve Vs) as O.
  split.
  - unfold throws. split.
    + intros H. apply dateDifference_throws in H. destruct H as [_ H].
      apply end_before_start_lt, O in H. subst T. lia.
    + intros H. unfold dateDifference.
      replace (end_before_start start end_) with true; [reflexivity|].
      symmetry. apply end_before_start_lt, O. subst T. lia.
  - intros HT.
    destruct (dateDifference_valid_fields start end_ Vs Ve)
      as (d & E & Y & M & D).
    { intros L. apply O in L. subst T. lia. }
    rewrite E. f_equal.
    pose proof (dateDifference_day_count _ _ _ E) as C.
    unfold durationDays in C. fold T in C. clearbody T.
    destruct d as [y m dd]. cbn in *.
    f_equal; Z.div_mod_to_equations; lia.
Qed.

Lemma valid_dates_duration_witness :
  dateDifference {| year := 2078; month := 1; day := 1 |}
                 {| year := 2080; month := 4; day := 4 |}
  = Return {| years := 813 / 360; months := 813 mod 360 / 30;
              days := 813 mod 30 |}.
Proof.
  apply (proj2 (valid_dates_duration {| year := 2078; month := 1; day := 1 |}
                  {| year := 2080; month := 4; day := 4 |}
                  ltac:(unfold valid_BSDate; cbn; lia)
                  ltac:(unfold valid_BSDate; cbn; lia))).
  vm_compute. discriminate.
Defined.

Lemma code_inj (c c' : ascii) : code c = code c' -> c = c'.
Proof.
  unfold code. intros H. apply N2Z.inj in H.
  rewrite <- (ascii_N_embedding c), <- (ascii_N_embedding c'). now rewrite H.
Qed.

Lemma isHyphen_code c : isHyphen c = true -> code c = 45.
Proof. unfold isHyphen. apply Z.eqb_eq. Qed.

(** Two date strings that pass the pattern test and parse to the same
    date are the same string: parsing a well-formed date loses nothing. *)
Theorem parseBSDate_injective (s s' : string) :
  datePattern_test s = true -> datePattern_test s' = true ->
  parseBSDate s = parseBSDate s' -> s = s'.
Proof.
  unfold datePattern_test.
  do 10 (destruct s as [|? s]; [discriminate|]).
  destruct s; [|discriminate].
  do 10 (destruct s' as [|? s']; [discriminate|]).
  destruct s'; [|discriminate]. cbn [list_ascii_of_string].
  rewrite !andb_true_iff.
  intros [[[[[[[[[Y1 Y2] Y3] Y4] H1] M1] M2] H2] D1] D2].
  intros [[[[[[[[[Y1' Y2'] Y3'] Y4'] H1'] M1'] M2'] H2'] D1'] D2'].
  unfold parseBSDate. cbn [split_hyphen].
  rewrite H1, H2, H1', H2'.
  rewrite !isDigit_not_hyphen by assumption.
  cbn [split_hyphen map nth Number digits_value].
  intros E.
  pose proof (f_equal year E) as Ey. pose proof (f_equal month E) as Em.
  pose proof (f_equal day E) as Ed. cbn [year month day] in Ey, Em, Ed.
  clear E.
  apply isDigit_range in Y1, Y2, Y3, Y4, M1, M2, D1, D2.
  apply isDigit_range in Y1', Y2', Y3', Y4', M1', M2', D1', D2'.
  apply isHyphen_code in H1, H2, H1', H2'.
  repeat f_equal; apply code_inj; lia.
Qed.

Lemma parseBSDate_injective_witness :
  "2078-01-01" = "2078-01-01".
Proof.
  apply parseBSDate_injective; reflexivity.
Defined.

Lemma code_digit_char (n : Z) : 0 <= n <= 9 -> code (digit_char n) = 48 + n.
Proof.
  intros H. unfold code, digit_char.
  rewrite N_ascii_embedding by lia. lia.
Qed.

Lemma isDigit_digit_char (n : Z) : 0 <= n <= 9 -> isDigit (digit_char n) = true.
Proof.
  intros H. unfold isDigit. rewrite (code_digit_char n H).
  apply andb_true_iff. split; apply Z.leb_le; lia.
Qed.

Lemma isHyphen_digit_char (n : Z) :
  0 <= n <= 9 -> isHyphen (digit_char n) = false.
Proof. intros H. now apply isDigit_not_hyphen, isDigit_digit_char. Qed.

(** The pattern checks digits and hyphens only, not ranges: every date
    with a year of 0-9999 and a month and a day of 0-99 (month 00 or 13,
    day 45, ...) is written by a string that passes the test, and that
    string parses back to the date. *)
Theorem format_parse_roundtrip (d : BSDate) :
  four_two_two d ->
  datePattern_test (formatBSDate d) = true
  /\ parseBSDate (formatBSDate d) = d.
Proof.
  destruct d as [y m dd]. unfold four_two_two. cbn [year month day].
  intros (Hy & Hm & Hd).
  assert (Y1 : 0 <= y / 1000 <= 9) by (Z.div_mod_to_equations; lia).
  assert (Y2 : 0 <= y / 100 mod 10 <= 9) by (Z.div_mod_to_equations; lia).
  assert (Y3 : 0 <= y mod 100 / 10 <= 9) by (Z.div_mod_to_equations; lia).
  assert (Y4 : 0 <= (y mod 100) mod 10 <= 9) by (Z.div_mod_to_equations; lia).
  assert (M1 : 0 <= m / 10 <= 9) by (Z.div_mod_to_equations; lia).
  assert (M2 : 0 <= m mod 10 <= 9) by (Z.div_mod_to_equations; lia).
  assert (D1 : 0 <= dd / 10 <= 9) by (Z.div_mod_to_equations; lia).
  assert (D2 : 0 <= dd mod 10 <= 9) by (Z.div_mod_to_equations; lia).
  unfold formatBSDate, pad4, pad2, datePattern_test, parseBSDate.
  cbn [year month day String.append list_ascii_of_string split_hyphen].
  change (isHyphen "-") with true.
  rewrite !isDigit_digit_char by assumption.
  rewrite !isHyphen_digit_char by assumption.
  cbn [split_hyphen map nth Number digits_value andb].
  rewrite !code_digit_char by assumption.
  split; [reflexivity|].
  f_equal; Z.div_mod_to_equations; lia.
Qed.

Lemma format_parse_roundtrip_witness :
  datePattern_test (formatBSDate {| year := 2080; month := 13; day := 45 |})
  = true
  /\ parseBSDate (formatBSDate {| year := 2080; month := 13; day := 45 |})
     = {| year := 2080; month := 13; day := 45 |}.
Proof.
  apply format_parse_roundtrip. unfold four_two_two. cbn. lia.
Defined.

(* ================================================================== *)
(** * Further properties of the calculation                            *)
(* ================================================================== *)

#[local] Open Scope float_scope.

Lemma nan_add_l (x : float) : nan + x = nan.
Proof. apply Prim2SF_inj. rewrite add_spec. reflexivity. Qed.

Lemma nan_add_r (x : float) : x + nan = nan.
Proof.
  apply Prim2SF_inj. rewrite add_spec.
  change (Prim2SF nan) with S754_nan. now destruct (Prim2SF x).
Qed.

Lemma nan_sub_l (x : float) : nan - x = nan.
Proof. apply Prim2SF_inj. rewrite sub_spec. reflexivity. Qed.

Lemma nan_mul_l (x : float) : nan * x = nan.
Proof. apply Prim2SF_inj. rewrite mul_spec. reflexivity. Qed.

Lemma nan_mul_r (x : float) : x * nan = nan.
Proof.
  apply Prim2SF_inj. rewrite mul_spec.
  change (Prim2SF nan) with S754_nan. now destruct (Prim2SF x).
Qed.

Lemma nan_div_l (x : float) : nan / x = nan.
Proof. apply Prim2SF_inj. rewrite div_spec. reflexivity. Qed.

(** The year loop and the trailing period on a principal that is NaN. *)
Lemma nan_years (ar : float) : forall turns year,
  amountAfter turns ar nan = nan
  /\ Forall (fun entry => interest entry = nan /\ endingAmount entry = nan)
       (yearEntries turns year ar nan).
Proof.
  induction turns as [|turns IH]; intros year;
    cbn [amountAfter yearEntries]; [auto|].
  unfold yearlyInterest. float_ops.
  rewrite nan_mul_l, nan_div_l, nan_add_l.
  destruct (IH (year + 1)%Z). auto.
Qed.

Lemma nan_trailing (mr : float) (d : Duration) :
  closingAmount nan (trailingEntries mr d nan) = nan
  /\ Forall (fun entry => interest entry = nan /\ endingAmount entry = nan)
       (trailingEntries mr d nan).
Proof.
  unfold trailingEntries, closingAmount.
  destruct (hasPartialPeriod d); cbn [fold_left]; [|auto].
  unfold partialInterest, monthsInterest, monthlyInterestAmount.
  cbn [endingAmount interest]. float_ops.
  rewrite nan_mul_l, nan_div_l, nan_mul_l, !nan_add_l. auto.
Qed.

(** The checks [principal <= 0] and [interestRate < 0] of
    [calculateNepaliInterest] do not stop a principal that is NaN: with
    a rate that is not negative and dates in order the call returns, and
    the final amount, the total interest and every entry of the ledger
    are NaN.  (Only the [isNaN] tests of [handleCalculate] keep NaN out.) *)
Theorem nan_principal_not_rejected (rate : float) (startDate endDate : string) :
  (rate <? 0) = false ->
  datePattern_test startDate = true ->
  datePattern_test endDate = true ->
  ~ BSDate_lt (parseBSDate endDate) (parseBSDate startDate) ->
  exists res,
    calculateNepaliInterest nan rate startDate endDate = Return res
    /\ finalAmount res = nan
    /\ totalInterest res = nan
    /\ Forall (fun entry => interest entry = nan /\ endingAmount entry = nan)
         (breakdown res).
Proof.
  intros R _ _ O.
  destruct (calculateBSDateDifference startDate endDate) as [d|m] eqn:D.
  2:{ apply dateDifference_throws in D. destruct D as [_ D].
      apply end_before_start_lt in D. contradiction. }
  eexists. split.
  { apply (calculateNepaliInterest_value nan rate startDate endDate d);
      [reflexivity | exact R | exact D]. }
  cbn [totalInterest breakdown finalAmount].
  rewrite accrue_spec. cbn [fst snd].
  destruct (nan_years (annualRate rate) (Z.to_nat (years d)) 1) as [A F].
  rewrite A.
  destruct (nan_trailing (monthlyRate rate) d) as [C T].
  rewrite C. float_ops. rewrite nan_sub_l.
  split; [reflexivity|]. split; [reflexivity|].
  apply Forall_app. auto.
Qed.

Lemma nan_principal_not_rejected_witness :
  exists res,
    calculateNepaliInterest nan 3 "2078-01-01" "2080-04-04" = Return res
    /\ finalAmount res = nan
    /\ totalInterest res = nan
    /\ Forall (fun entry => interest entry = nan /\ endingAmount entry = nan)
         (breakdown res).
Proof.
  apply nan_principal_not_rejected; try reflexivity.
  unfold BSDate_lt. cbn. lia.
Defined.

Lemma yearEntries_app {num : Type} {JSN : JSNumber num} (n k : nat) :
  forall (year : Z) (ar cp : num),
    yearEntries (n + k) year ar cp
    = yearEntries n year ar cp
      ++ yearEntries k (year + Z.of_nat n)%Z ar (amountAfter n ar cp).
Proof.
  induction n as [|n IH]; intros year ar cp.
  - cbn. now rewrite Z.add_0_r.
  - cbn [Nat.add yearEntries amountAfter app]. rewrite IH.
    replace (year + 1 + Z.of_nat n)%Z with (year + Z.of_nat (S n))%Z by lia.
    reflexivity.
Qed.

Lemma year_rows_of_result {num : Type} {JSN : JSNumber num}
    (p r : num) (startDate endDate : string) (res : CalculationResult num)
    (n : nat) :
  calculateNepaliInterest p r startDate endDate = Return res ->
  (n <= Z.to_nat (years (timeDuration res)))%nat ->
  firstn n (breakdown res) = yearEntries n 1 (annualRate r) p.
Proof.
  intros H L. apply calculateNepaliInterest_returns in H.
  destruct H as (_ & _ & d & _ & ->). cbn [timeDuration breakdown] in *.
  rewrite accrue_spec. cbn [snd].
  replace (Z.to_nat (years d)) with (n + (Z.to_nat (years d) - n))%nat by lia.
  rewrite yearEntries_app, <- app_assoc.
  rewrite firstn_app, length_yearEntries, Nat.sub_diag.
  rewrite firstn_all2 by (rewrite length_yearEntries; lia).
  cbn [firstn]. apply app_nil_r.
Qed.

(** The year rows do not depend on how long the calculation runs: two
    calls with the same principal and rate agree on the first [n] rows
    of their ledgers, for every [n] up to the full years of both. *)
Theorem year_rows_stable (principal rate : float)
    (startDate endDate startDate' endDate' : string)
    (res res' : CalculationResult float) (n : nat) :
  calculateNepaliInterest principal rate startDate endDate = Return res ->
  calculateNepaliInterest principal rate startDate' endDate' = Return res' ->
  (n <= Z.to_nat (years (timeDuration res)))%nat ->
  (n <= Z.to_nat (years (timeDuration res')))%nat ->
  firstn n (breakdown res) = firstn n (breakdown res').
Proof.
  intros H H' L L'.
  rewrite (year_rows_of_result _ _ _ _ _ n H L).
  rewrite (year_rows_of_result _ _ _ _ _ n H' L'). reflexivity.
Qed.

Lemma year_rows_stable_witness :
  exists res',
    calculateNepaliInterest 100000 3 "2070-05-05" "2075-01-20" = Return res'
    /\ firstn 2 (breakdown initial_result) = firstn 2 (breakdown res').
Proof.
  eexists. split; [vm_compute; reflexivity|].
  apply (year_rows_stable 100000 3 "2078-01-01" "2080-04-04"
           "2070-05-05" "2075-01-20"); vm_compute; try reflexivity; lia.
Defined.

(* ================================================================== *)
(** * Further properties of the handlers                               *)
(* ================================================================== *)

(** Whatever the inputs, a failed attempt shows one of four messages:
    the three of [handleCalculate] or 'End date must be after start
    date'.  The two other messages of [calculateNepaliInterest]
    ('Principal must be greater than 0', 'Interest rate cannot be
    negative') never reach the user: the handler's own checks come
    first. *)
Theorem surfaced_messages (inp : CalculatorInputs) (message : string) :
  tryCalculate inp = Throw message ->
  (message = ui_principal_message \/ message = ui_rate_message
   \/ message = ui_date_message \/ message = ordering_message)
  /\ message <> principal_message /\ message <> rate_message.
Proof.
  intros H.
  assert (C : message = ui_principal_message \/ message = ui_rate_message
              \/ message = ui_date_message \/ message = ordering_message).
  { revert H. unfold tryCalculate. cbv zeta.
    destruct (isNaN (parseFloat (principal inp))
              || (parseFloat (principal inp) <=? 0)) eqn:P;
      [intros [= <-]; auto|].
    apply orb_false_iff in P. destruct P as [_ P].
    destruct (isNaN (parseFloat (interestRate inp))
              || (parseFloat (interestRate inp) <? 0)) eqn:R;
      [intros [= <-]; auto|].
    apply orb_false_iff in R. destruct R as [_ R].
    destruct (negb (datePattern_test (startDate inp))
              || negb (datePattern_test (endDate inp)));
      [intros [= <-]; auto|].
    unfold calculateNepaliInterest. float_ops.
    change (float_of_Z 0) with 0. rewrite P, R.
    destruct (calculateBSDateDifference (startDate inp) (endDate inp))
      as [d|m] eqn:D; cbn.
    - destruct (accrue _ _ d). discriminate.
    - apply dateDifference_throws in D. destruct D as [-> _].
      intros [= <-]. auto. }
  split; [exact C|].
  destruct C as [-> | [-> | [-> | ->]]]; split; discriminate.
Qed.

Lemma surfaced_messages_witness :
  (ordering_message = ui_principal_message
   \/ ordering_message = ui_rate_message
   \/ ordering_message = ui_date_message
   \/ ordering_message = ordering_message)
  /\ ordering_message <> principal_message
  /\ ordering_message <> rate_message.
Proof.
  apply (surfaced_messages
           {| principal := "100000"; interestRate := "3";
              startDate := "2080-01-01"; endDate := "2079-01-01" |}).
  vm_compute. reflexivity.
Defined.

Lemma tryCalculate_passes (inp : CalculatorInputs) :
  ~ fails_validation inp -> returns (tryCalculate inp).
Proof.
  unfold fails_validation, invalid_principal, invalid_rate, bad_date_format,
    ordering_violation, tryCalculate. cbv zeta. intros H.
  destruct (isNaN (parseFloat (principal inp))) eqn:P1; [tauto|].
  destruct (parseFloat (principal inp) <=? 0) eqn:P2; [tauto|].
  destruct (isNaN (parseFloat (interestRate inp))) eqn:R1; [tauto|].
  destruct (parseFloat (interestRate inp) <? 0) eqn:R2; [tauto|].
  destruct (datePattern_test (startDate inp)) eqn:F1; [|tauto].
  destruct (datePattern_test (endDate inp)) eqn:F2; [|tauto].
  cbn [orb negb].
  unfold returns, calculateNepaliInterest. float_ops.
  change (float_of_Z 0) with 0. rewrite P2, R2.
  destruct (calculateBSDateDifference (startDate inp) (endDate inp))
    as [d|m] eqn:D; cbn.
  - destruct (accrue _ _ d). eauto.
  - apply dateDifference_throws in D. destruct D as [_ D].
    apply end_before_start_lt in D. tauto.
Qed.

(** [handleCalculate] ends with a result exactly when the inputs pass
    validation (principal a number above 0, rate a number of 0 or more,
    both dates of the pattern, end not before start); the error is then
    empty and the inputs are untouched.  Ranges of months and days are
    not part of validation. *)
Theorem result_iff_valid (st : ComponentState) :
  (result (handleCalculate st) <> None <-> ~ fails_validation (inputs st))
  /\ (result (handleCalculate st) <> None -> error (handleCalculate st) = "")
  /\ inputs (handleCalculate st) = inputs st.
Proof.
  unfold handleCalculate. cbn [setError inputs].
  destruct (tryCalculate (inputs st)) as [r|m] eqn:T;
    cbn [setResult setError result error inputs].
  - split; [split|split; reflexivity].
    + intros _ F. apply tryCalculate_fails in F.
      destruct F as (m & F & _). congruence.
    + discriminate.
  - split; [split|split; [|reflexivity]].
    + intros H. now contradiction H.
    + intros V. apply tryCalculate_passes in V. destruct V as [r V].
      congruence.
    + intros H. now contradiction H.
Qed.

Lemma result_iff_valid_witness :
  error (handleCalculate
           {| inputs := {| principal := "2500.50"; interestRate := "12";
                           startDate := "2080-13-45";
                           endDate := "2081-00-99" |};
              result := None; error := "old" |}) = "".
Proof.
  apply (proj1 (proj2 (result_iff_valid _))). vm_compute. discriminate.
Defined.

(** Clicking Calculate twice is the same as clicking it once, and what
    it shows depends on the inputs alone, not on the result or the error
    shown before. *)
Theorem handleCalculate_idempotent (st st' : ComponentState) :
  handleCalculate (handleCalculate st) = handleCalculate st
  /\ (inputs st = inputs st' -> handleCalculate st = handleCalculate st').
Proof.
  split.
  - unfold handleCalculate. cbn [setError inputs].
    destruct (tryCalculate (inputs st)) as [r|m] eqn:T;
      cbn [setResult setError inputs]; rewrite T; reflexivity.
  - intros E. unfold handleCalculate, setError. cbn [inputs].
    rewrite E. reflexivity.
Qed.

Lemma handleCalculate_idempotent_witness :
  handleCalculate {| inputs := initial_inputs; result := None; error := "" |}
  = handleCalculate
      {| inputs := initial_inputs; result := None; error := "stale" |}.
Proof.
  apply (proj2 (handleCalculate_idempotent
                  {| inputs := initial_inputs; result := None; error := "" |}
                  {| inputs := initial_inputs; result := None;
                     error := "stale" |})).
  reflexivity.
Defined.

(** Editing a field replaces that field alone and clears the error, but
    keeps the result on screen, which then belongs to the inputs as they
    were before.  Two edits of the same field leave the later value;
    edits of different fields commute. *)
Theorem handleInputChange_laws (f g : InputField) (v w : string)
    (st : ComponentState) :
  field_value f (inputs (handleInputChange f v st)) = v
  /\ (f <> g ->
      field_value g (inputs (handleInputChange f v st))
      = field_value g (inputs st))
  /\ error (handleInputChange f v st) = ""
  /\ result (handleInputChange f v st) = result st
  /\ handleInputChange f v (handleInputChange f w st) = handleInputChange f v st
  /\ (f <> g ->
      handleInputChange f v (handleInputChange g w st)
      = handleInputChange g w (handleInputChange f v st)).
Proof.
  repeat split; destruct f, g; intros; try congruence; reflexivity.
Qed.

Lemma handleInputChange_laws_witness :
  field_value startDate_field
    (inputs (handleInputChange principal_field "5"
               {| inputs := initial_inputs; result := None; error := "" |}))
  = field_value startDate_field initial_inputs.
Proof.
  apply (proj1 (proj2 (handleInputChange_laws principal_field startDate_field
                         "5" ""
                         {| inputs := initial_inputs; result := None;
                            error := "" |}))).
  discriminate.
Defined.

(* ================================================================== *)
(** * Saved calculations                                               *)
(* ================================================================== *)

#[local] Close Scope float_scope.

(** Saving does nothing at all (no state change, no write, no alert)
    when there is no result, when the prompt is cancelled or when the
    name is empty.  Otherwise it appends one entry, made of the current
    inputs, the result on screen, the name and the two clock readings,
    at the end of the list, writes the whole new list to storage and
    alerts; the calculation on screen, the view and the menu stay. *)
Theorem handleSaveCalculation_outcome (answer : option string)
    (now_id now_timestamp : Z) (st : PageState) :
  let out := handleSaveCalculation answer now_id now_timestamp st in
  calculation (fst out) = calculation st
  /\ currentView (fst out) = currentView st
  /\ mobileMenuOpen (fst out) = mobileMenuOpen st
  /\ ((result (calculation st) = None \/ answer = None
       \/ answer = Some EmptyString) ->
      out = (st, []))
  /\ (forall res name,
        result (calculation st) = Some res -> answer = Some name ->
        name <> EmptyString ->
        savedCalculations (fst out)
        = savedCalculations st
          ++ [savedEntry name now_id now_timestamp st res]
        /\ snd out
           = [setItem storage_key (savedCalculations (fst out));
              alert "Calculation saved successfully!"]).
Proof.
  cbv zeta. unfold handleSaveCalculation, savedEntry.
  destruct (result (calculation st)) as [res|].
  - destruct answer as [[|c name]|]; cbn [fst snd calculation currentView
      mobileMenuOpen savedCalculations].
    + do 3 (split; [reflexivity|]). split; [reflexivity|].
      intros res' name' _ [= <-] N. now contradiction N.
    + do 3 (split; [reflexivity|]). split.
      * intros [H|[H|H]]; discriminate.
      * intros res' name' [= <-] [= <-] _. split; reflexivity.
    + do 3 (split; [reflexivity|]). split; [reflexivity|].
      intros res' name' _ [=].
  - do 3 (split; [reflexivity|]). split; [reflexivity|].
    intros res name [=].
Qed.

Lemma handleSaveCalculation_outcome_witness :
  savedCalculations
    (fst (handleSaveCalculation (Some "first") 1700000000000 1700000000001
            (on_calculation handleCalculate initial_state)))
  = [savedEntry "first" 1700000000000 1700000000001
       (on_calculation handleCalculate initial_state) initial_result].
Proof.
  pose proof (handleSaveCalculation_outcome (Some "first") 1700000000000
                1700000000001 (on_calculation handleCalculate initial_state))
    as H.
  cbv zeta in H. destruct H as (_ & _ & _ & _ & H).
  apply (H initial_result "first");
    [vm_compute; reflexivity | reflexivity | discriminate].
Defined.

(** A confirmed delete keeps, in their order, exactly the entries whose
    id differs from the given one (every entry with that id goes, and
    none is left), writes the remaining list to storage, and leaves the
    rest of the state alone; a delete that is not confirmed changes
    nothing and writes nothing.  Deleting an id that no entry has keeps
    the list as it is, but still writes it. *)
Theorem handleDeleteCalculation_outcome (confirmed : bool) (id : string)
    (st : PageState) :
  let out := handleDeleteCalculation confirmed id st in
  calculation (fst out) = calculation st
  /\ currentView (fst out) = currentView st
  /\ mobileMenuOpen (fst out) = mobileMenuOpen st
  /\ (confirmed = false -> out = (st, []))
  /\ (confirmed = true ->
      (forall c, In c (savedCalculations (fst out))
                 <-> In c (savedCalculations st)
                     /\ SavedCalculation.id c <> id)
      /\ subsequence (savedCalculations (fst out)) (savedCalculations st)
      /\ ((forall c, In c (savedCalculations st) ->
                     SavedCalculation.id c <> id) ->
          savedCalculations (fst out) = savedCalculations st)
      /\ snd out = [setItem storage_key (savedCalculations (fst out))]).
Proof.
  cbv zeta. unfold handleDeleteCalculation.
  destruct confirmed; cbn [negb fst snd calculation currentView
    mobileMenuOpen savedCalculations].
  - do 3 (split; [reflexivity|]). split; [discriminate|]. intros _.
    split; [|split; [|split; [|reflexivity]]].
    + intros c. rewrite filter_In, negb_true_iff.
      destruct (String.eqb_spec (SavedCalculation.id c) id);
        intuition congruence.
    + induction (savedCalculations st) as [|c l IH]; cbn; [constructor|].
      destruct (String.eqb (SavedCalculation.id c) id); cbn;
        now constructor.
    + intros H. induction (savedCalculations st) as [|c l IH]; cbn;
        [reflexivity|].
      destruct (String.eqb_spec (SavedCalculation.id c) id) as [E|E].
      * exfalso. apply (H c); [now left | exact E].
      * cbn. f_equal. apply IH. intros c' Hc'. apply H. now right.
  - do 3 (split; [reflexivity|]). split; [reflexivity|]. discriminate.
Qed.

Lemma handleDeleteCalculation_outcome_witness :
  handleDeleteCalculation false "1700000000000" initial_state
  = (initial_state, []).
Proof.
  apply (proj1 (proj2 (proj2 (proj2
           (handleDeleteCalculation_outcome false "1700000000000"
              initial_state))))).
  reflexivity.
Defined.

(** Deleting the same id twice is the same as deleting it once. *)
Lemma delete_twice (id : string) (st : PageState) :
  fst (handleDeleteCalculation true id
         (fst (handleDeleteCalculation true id st)))
  = fst (handleDeleteCalculation true id st).
Proof.
  unfold handleDeleteCalculation. cbn [negb fst calculation currentView
    mobileMenuOpen savedCalculations].
  f_equal. induction (savedCalculations st) as [|c l IH]; cbn; [reflexivity|].
  destruct (String.eqb (SavedCalculation.id c) id) eqn:E; cbn;
    [exact IH | rewrite E; cbn; now f_equal].
Qed.

(** ** Identifiers *)

Lemma to_int_not_nil (n : Z) :
  Z.to_int n <> Decimal.Pos Decimal.Nil
  /\ Z.to_int n <> Decimal.Neg Decimal.Nil.
Proof.
  destruct n as [|p|p]; cbn; split; try discriminate;
    intros [= H]; now apply DecimalPos.Unsigned.to_uint_nonnil in H.
Qed.

(** The decimal notation of an integer determines the integer. *)
Lemma string_of_Z_inj (n n' : Z) : string_of_Z n = string_of_Z n' -> n = n'.
Proof.
  unfold string_of_Z. intros H.
  apply DecimalZ.to_int_inj.
  destruct (to_int_not_nil n) as [N1 N2], (to_int_not_nil n') as [N1' N2'].
  pose proof (NilZero.isi _ N1 N2) as I.
  pose proof (NilZero.isi _ N1' N2') as I'.
  rewrite H in I. congruence.
Qed.

Lemma filter_other_ids (id : string) (l : list SavedCalculation.t) :
  (forall c, In c l -> SavedCalculation.id c <> id) ->
  filter (fun c => negb (String.eqb (SavedCalculation.id c) id)) l = l.
Proof.
  intros H. induction l as [|c l IH]; cbn; [reflexivity|].
  destruct (String.eqb_spec (SavedCalculation.id c) id) as [E|E].
  - exfalso. apply (H c); [now left | exact E].
  - cbn. f_equal. apply IH. intros c' Hc'. apply H. now right.
Qed.

(** Saving and then deleting the id just given brings the whole state
    back, provided no older entry carries that id. *)
Theorem save_then_delete (name : string) (now_id now_timestamp : Z)
    (st : PageState) (res : CalculationResult float) :
  result (calculation st) = Some res -> name <> EmptyString ->
  (forall c, In c (savedCalculations st) ->
             SavedCalculation.id c <> string_of_Z now_id) ->
  fst (handleDeleteCalculation true (string_of_Z now_id)
         (fst (handleSaveCalculation (Some name) now_id now_timestamp st)))
  = st.
Proof.
  intros R N Fresh. unfold handleSaveCalculation. rewrite R.
  destruct name as [|c name]; [now contradiction N|].
  unfold handleDeleteCalculation.
  cbn [negb fst calculation currentView mobileMenuOpen savedCalculations].
  rewrite filter_app, (filter_other_ids _ _ Fresh). cbn [filter
    SavedCalculation.id]. rewrite String.eqb_refl. cbn [negb].
  rewrite app_nil_r. now destruct st.
Qed.

Lemma save_then_delete_witness :
  fst (handleDeleteCalculation true (string_of_Z 1700000000000)
         (fst (handleSaveCalculation (Some "first") 1700000000000
                 1700000000001
                 (on_calculation handleCalculate initial_state))))
  = on_calculation handleCalculate initial_state.
Proof.
  apply (save_then_delete "first" 1700000000000 1700000000001
           (on_calculation handleCalculate initial_state) initial_result).
  - vm_compute. reflexivity.
  - discriminate.
  - intros c [].
Defined.

(** Entries saved at different readings of the clock have different
    ids, so deleting by the id of one reading never removes an entry
    saved at another. *)
Theorem delete_spares_other_readings (t t' : Z) (c : SavedCalculation.t)
    (st : PageState) :
  t <> t' ->
  In c (savedCalculations st) -> SavedCalculation.id c = string_of_Z t' ->
  In c (savedCalculations
          (fst (handleDeleteCalculation true (string_of_Z t) st))).
Proof.
  intros D I E. unfold handleDeleteCalculation.
  cbn [negb fst savedCalculations]. apply filter_In. split; [exact I|].
  apply negb_true_iff, String.eqb_neq. rewrite E. intros H.
  apply string_of_Z_inj in H. congruence.
Qed.

Lemma delete_spares_other_readings_witness :
  let entry :=
    {| SavedCalculation.id := string_of_Z 1700000000001;
       SavedCalculation.timestamp := 1700000000001;
       SavedCalculation.inputs := initial_inputs;
       SavedCalculation.result := initial_result;
       SavedCalculation.name := "second" |} in
  In entry
    (savedCalculations
       (fst (handleDeleteCalculation true (string_of_Z 1700000000000)
               {| calculation := calculation initial_state;
                  savedCalculations := [entry];
                  currentView := saved; mobileMenuOpen := false |}))).
Proof.
  cbv zeta.
  apply (delete_spares_other_readings 1700000000000 1700000000001).
  - discriminate.
  - now left.
  - reflexivity.
Defined.

(** Loading an entry puts its inputs and its result on screen as they
    were saved, without recomputing, switches to the calculator view and
    closes the menu; the list of saved entries stays.  The error message
    stays too: after a failed attempt, a loaded result is shown next to
    the message of that attempt.  An entry made by Save therefore comes
    back with the inputs and the result that were on screen when it was
    saved. *)
Theorem load_restores_saved (name : string) (now_id now_timestamp : Z)
    (st later : PageState) (res : CalculationResult float) :
  result (calculation st) = Some res -> name <> EmptyString ->
  let st1 := fst (handleSaveCalculation (Some name) now_id now_timestamp st) in
  let entry := last (savedCalculations st1)
                 (savedEntry name now_id now_timestamp st res) in
  let st2 := handleLoadCalculation entry later in
  In entry (savedCalculations st1)
  /\ inputs (calculation st2) = inputs (calculation st)
  /\ result (calculation st2) = Some res
  /\ error (calculation st2) = error (calculation later)
  /\ savedCalculations st2 = savedCalculations later
  /\ currentView st2 = calculator
  /\ mobileMenuOpen st2 = false.
Proof.
  intros R N. cbv zeta. unfold handleSaveCalculation. rewrite R.
  destruct name as [|c name]; [now contradiction N|].
  cbn [fst savedCalculations]. rewrite last_last.
  split; [apply in_or_app; right; now left|].
  repeat split.
Qed.

Lemma load_restores_saved_witness :
  let st := on_calculation handleCalculate initial_state in
  let st1 := fst (handleSaveCalculation (Some "first") 1 2 st) in
  let entry := last (savedCalculations st1)
                 (savedEntry "first" 1 2 st initial_result) in
  result (calculation (handleLoadCalculation entry initial_state))
  = Some initial_result.
Proof.
  cbv zeta.
  apply (load_restores_saved "first" 1 2
           (on_calculation handleCalculate initial_state) initial_state
           initial_result).
  - vm_compute. reflexivity.
  - discriminate.
Defined.

(** Save pairs the inputs as they are now with the result on screen,
    also when a field was edited after the result was computed: the
    entry then holds inputs that do not give its result. *)
Theorem save_after_edit (f : InputField) (v name : string)
    (now_id now_timestamp : Z) (st : PageState)
    (res : CalculationResult float) :
  result (calculation st) = Some res -> name <> EmptyString ->
  tryCalculate (set_field f v (inputs (calculation st))) <> Return res ->
  let edited := on_calculation (handleInputChange f v) st in
  exists entry,
    In entry
      (savedCalculations
         (fst (handleSaveCalculation (Some name) now_id now_timestamp edited)))
    /\ SavedCalculation.inputs entry = set_field f v (inputs (calculation st))
    /\ SavedCalculation.result entry = res
    /\ tryCalculate (SavedCalculation.inputs entry)
       <> Return (SavedCalculation.result entry).
Proof.
  intros R N T. cbv zeta. unfold handleSaveCalculation.
  cbn [on_calculation calculation handleInputChange setError result inputs].
  rewrite R. destruct name as [|c name]; [now contradiction N|].
  cbn [fst savedCalculations].
  eexists. split; [apply in_or_app; right; now left|].
  cbn [SavedCalculation.inputs SavedCalculation.result]. auto.
Qed.

Lemma save_after_edit_witness :
  exists entry,
    In entry
      (savedCalculations
         (fst (handleSaveCalculation (Some "edited") 1 2
                 (on_calculation (handleInputChange principal_field "5")
                    (on_calculation handleCalculate initial_state)))))
    /\ SavedCalculation.inputs entry
       = set_field principal_field "5" initial_inputs
    /\ SavedCalculation.result entry = initial_result
    /\ tryCalculate (SavedCalculation.inputs entry)
       <> Return (SavedCalculation.result entry).
Proof.
  apply (save_after_edit principal_field "5" "edited" 1 2
           (on_calculation handleCalculate initial_state) initial_result).
  - vm_compute. reflexivity.
  - discriminate.
  - intros H.
    apply (f_equal (fun c => match c with
                             | Return r => finalAmount r
                             | Throw _ => PrimFloat.zero
                             end)) in H.
    revert H. float_differ.
Defined.

(* ================================================================== *)
(** * Sequences of actions                                             *)
(* ================================================================== *)

Lemma lastStored_app (effects effects' : list Effect) :
  lastStored (effects ++ effects')
  = match lastStored effects' with
    | Some v => Some v
    | None => lastStored effects
    end.
Proof.
  induction effects as [|e effects IH]; cbn.
  - now destruct (lastStored effects').
  - rewrite IH. now destruct (lastStored effects').
Qed.

Lemma run_cons (a : Action) (rest : list Action) (st : PageState) :
  run (a :: rest) st
  = (fst (run rest (fst (step a st))),
     snd (step a st) ++ snd (run rest (fst (step a st)))).
Proof.
  cbn [run]. destruct (step a st) as [st' effects]. cbn [fst snd].
  destruct (run rest st') as [st'' effects']. reflexivity.
Qed.

(** One action either leaves the saved list alone and writes nothing,
    or writes the list it leaves. *)
Lemma step_storage (a : Action) (st : PageState) :
  (lastStored (snd (step a st)) = None
   /\ savedCalculations (fst (step a st)) = savedCalculations st)
  \/ lastStored (snd (step a st)) = Some (savedCalculations (fst (step a st))).
Proof.
  destruct a as [f v| |answer t1 t2|calc|confirmed id|view|]; cbn [step];
    try (left; split; reflexivity).
  - unfold handleSaveCalculation.
    destruct (result (calculation st)); [|left; split; reflexivity].
    destruct answer as [[|ch name]|]; try (left; split; reflexivity).
    right. reflexivity.
  - unfold handleDeleteCalculation.
    destruct confirmed; [right|left; split]; reflexivity.
Qed.

(** After any sequence of actions the browser storage holds the list of
    saved calculations of the component, as soon as one write happened;
    and while none happened the list has not changed. *)
Theorem storage_in_sync (actions : list Action) (st : PageState) :
  match lastStored (snd (run actions st)) with
  | Some stored => stored = savedCalculations (fst (run actions st))
  | None => savedCalculations (fst (run actions st)) = savedCalculations st
  end.
Proof.
  revert st. induction actions as [|a rest IH]; intros st; [reflexivity|].
  rewrite run_cons. cbn [fst snd]. rewrite lastStored_app.
  specialize (IH (fst (step a st))).
  destruct (lastStored (snd (run rest (fst (step a st))))) as [v|];
    [exact IH|].
  destruct (step_storage a st) as [[N S] | S]; rewrite ?N, ?S; congruence.
Qed.

Lemma step_results_computed (a : Action) (st : PageState) :
  results_computed st ->
  match a with
  | Load calc => In calc (savedCalculations st)
  | _ => True
  end ->
  results_computed (fst (step a st)).
Proof.
  unfold results_computed. intros [R S] L.
  destruct a as [f v| |answer t1 t2|calc|confirmed id|view|]; cbn [step fst].
  - split; [exact R | exact S].
  - split; [|exact S]. cbn [on_calculation calculation].
    unfold handleCalculate. cbn [setError inputs].
    destruct (tryCalculate (inputs (calculation st))) as [r|m] eqn:T;
      cbn [setResult result]; [|discriminate].
    intros r' [= <-]. now exists (inputs (calculation st)).
  - unfold handleSaveCalculation.
    destruct (result (calculation st)) as [res|] eqn:E.
    + assert (Cr : computed res) by now apply R.
      assert (Keep : (forall r, result (calculation st) = Some r -> computed r)
                     /\ Forall (fun c => computed (SavedCalculation.result c))
                          (savedCalculations st)).
      { split; [|exact S]. intros r H. rewrite E in H. now apply R. }
      destruct answer as [[|ch name]|]; cbn [fst]; try exact Keep.
      cbn [calculation savedCalculations]. split; [apply Keep|].
      apply Forall_app. split; [exact S|]. now repeat constructor.
    + cbn [fst]. split; [|exact S]. intros r H. rewrite E in H.
      discriminate.
  - cbn [handleLoadCalculation calculation savedCalculations setResult result].
    split; [|exact S]. intros r [= <-].
    rewrite Forall_forall in S. now apply S.
  - unfold handleDeleteCalculation. destruct confirmed; [|now split].
    cbn [negb fst calculation savedCalculations]. split; [exact R|].
    rewrite Forall_forall in *. intros c Hc. apply filter_In in Hc.
    now apply S.
  - now split.
  - now split.
Qed.

(** Starting from a page whose results were all computed (an empty page
    is one), and loading only entries of the saved list, every result
    that is on screen or in the list after any sequence of actions is
    one that [calculateNepaliInterest] returned for some inputs that
    passed the handler's checks: editing, saving, loading and deleting
    never make up or alter a result. *)
Theorem results_are_computed (actions : list Action) (st : PageState) :
  results_computed st -> loads_listed actions st ->
  results_computed (fst (run actions st)).
Proof.
  revert st. induction actions as [|a rest IH]; intros st C L; [exact C|].
  rewrite run_cons. cbn [fst]. destruct L as [La Lrest].
  apply IH; [|exact Lrest]. now apply step_results_computed.
Qed.

Lemma results_are_computed_witness :
  results_computed
    (fst (run [Calculate; Save (Some "first") 1 2;
               InputChange principal_field "0"; Calculate;
               Load (savedEntry "first" 1 2
                       (on_calculation handleCalculate initial_state)
                       initial_result);
               Delete true "1"]
            initial_state)).
Proof.
  apply results_are_computed.
  - split; [discriminate | constructor].
  - cbn [loads_listed]. repeat split. vm_compute. now left.
Defined.

(* ================================================================== *)
(** * Labels of the ledger                                             *)
(* ================================================================== *)


Lemma string_of_positive_starts_with_digit (n : Z) :
  0 < n -> exists c rest, string_of_Z n = String c rest /\ isDigit c = true.
Proof.
  destruct n as [|p|p]; try lia. intros _.
  unfold string_of_Z. cbn [Z.to_int NilZero.string_of_int].
  pose proof (DecimalPos.Unsigned.to_uint_nonnil p) as N.
  destruct (Pos.to_uint p); [now contradiction N|..];
    cbn; do 2 eexists; split; reflexivity.
Qed.

Lemma periodLabel_starts_with_digit (d : Duration) :
  hasPartialPeriod d = true ->
  exists c rest, periodLabel d = String c rest /\ isDigit c = true.
Proof.
  unfold hasPartialPeriod, periodLabel. cbv zeta.
  destruct (months d >? 0) eqn:M.
  - intros _. apply Z.gtb_lt in M.
    destruct (string_of_positive_starts_with_digit _ M) as (c & rest & E & D).
    rewrite E. destruct (days d >? 0); cbn; eauto.
  - cbn [orb]. intros N. rewrite N. apply Z.gtb_lt in N.
    destruct (string_of_positive_starts_with_digit _ N) as (c & rest & E & D).
    rewrite E. cbn. eauto.
Qed.

Lemma year_labels_NoDup (n : nat) : forall k : nat,
  NoDup (map (fun i => ("Year " ++ string_of_Z (Z.of_nat i))%string) (seq k n)).
Proof.
  induction n as [|n IH]; intros k; cbn [seq map]; constructor; [|apply IH].
  rewrite in_map_iff. intros (i & E & I). apply in_seq in I.
  cbn in E. injection E as E. apply string_of_Z_inj in E. lia.
Qed.

(** Every row of a returned ledger has a label of its own: the year
    rows are "Year 1", "Year 2", ... and the trailing row, whose label
    starts with a number, is none of them. *)
Theorem ledger_labels_distinct (principal rate : float)
    (startDate endDate : string) (res : CalculationResult float) :
  calculateNepaliInterest principal rate startDate endDate = Return res ->
  NoDup (map period (breakdown res)).
Proof.
  intros H. apply calculateNepaliInterest_returns in H.
  destruct H as (_ & _ & d & _ & ->). cbn [breakdown].
  rewrite accrue_spec. cbn [snd]. rewrite map_app.
  rewrite (period_yearEntries (Z.to_nat (years d)) 1).
  unfold trailingEntries.
  destruct (hasPartialPeriod d) eqn:P; cbn [map];
    [|rewrite app_nil_r; apply year_labels_NoDup].
  apply NoDup_app.
  - apply year_labels_NoDup.
  - repeat constructor. intros [].
  - intros label I [E|[]]. cbn [period] in E.
    apply in_map_iff in I. destruct I as (i & I & _).
    destruct (periodLabel_starts_with_digit d P) as (c & rest & L & D).
    rewrite <- E, L in I. cbn in I. injection I as I _. subst c.
    discriminate D.
Qed.

Lemma ledger_labels_distinct_witness :
  NoDup (map period (breakdown initial_result)).
Proof.
  apply (ledger_labels_distinct 100000 3 "2078-01-01" "2080-04-04").
  vm_compute. reflexivity.
Defined.

(* ================================================================== *)
(** * The final amount and the principal                               *)
(* ================================================================== *)

#[local] Open Scope float_scope.

(** X23.  The final amount does not decrease with the principal: of
    two calculations at the same finite rate above 0 and on the same
    dates, with months and days of 0 or more, the one on the greater
    principal returns a final amount that is greater or equal, unless
    it has overflowed to [NaN]. *)
Theorem more_principal (principal principal' rate : float)
    (startDate endDate : string) (res res' : CalculationResult float) :
  positive_finite rate ->
  calculateNepaliInterest principal rate startDate endDate = Return res ->
  calculateNepaliInterest principal' rate startDate endDate = Return res' ->
  (principal <=? principal') = true ->
  (0 <= months (timeDuration res) <= 2 ^ 53)%Z ->
  (0 <= days (timeDuration res) <= 2 ^ 53)%Z ->
  isNaN (finalAmount res') = false ->
  (finalAmount res <=? finalAmount res') = true.
Proof.
  intros R S S' L M D N.
  apply calculateNepaliInterest_returns in S, S'.
  destruct S as (P & _ & d & Dd & ->). destruct S' as (P' & _ & d' & Dd' & ->).
  assert (E : d' = d) by congruence. subst d'.
  cbn [timeDuration finalAmount] in *.
  float_ops. change (float_of_Z 0) with 0 in P, P'.
  apply below_leb; [|exact N].
  apply round2_below. rewrite !accrue_spec. cbn [fst].
  apply closingAmount_below; try reflexivity; try assumption.
  - now apply monthlyRate_finite.
  - apply amountAfter_below; [now apply annualRate_finite|].
    apply leb_below; try assumption; now apply positive_in_range.
Qed.

Lemma more_principal_witness :
  exists res res',
    calculateNepaliInterest 100000 3 "2078-01-01" "2080-04-04" = Return res
    /\ calculateNepaliInterest 100000.01 3 "2078-01-01" "2080-04-04"
       = Return res'
    /\ (finalAmount res <=? finalAmount res') = true.
Proof.
  do 2 eexists. split; [vm_compute; reflexivity|].
  split; [vm_compute; reflexivity|].
  apply (more_principal 100000 100000.01 3 "2078-01-01" "2080-04-04");
    try (vm_compute; reflexivity); try (split; reflexivity);
    cbn; lia.
Defined.

(** X24.  Interest never takes from the principal: at a finite rate
    above 0 and with months and days of 0 or more, the final amount is
    at least [Math.round(principal * 100) / 100], the final amount of
    the same principal over no time, unless it has overflowed to
    [NaN]. *)
Theorem final_amount_covers_principal (principal rate : float)
    (startDate endDate : string) (res : CalculationResult float) :
  positive_finite rate ->
  calculateNepaliInterest principal rate startDate endDate = Return res ->
  (0 <= months (timeDuration res) <= 2 ^ 53)%Z ->
  (0 <= days (timeDuration res) <= 2 ^ 53)%Z ->
  isNaN (finalAmount res) = false ->
  (float_Math_round (principal * 100) / 100 <=? finalAmount res) = true.
Proof.
  intros R S M D N.
  apply calculateNepaliInterest_returns in S.
  destruct S as (P & _ & d & Dd & ->).
  cbn [timeDuration finalAmount] in *.
  float_ops. change (float_of_Z 0) with 0 in P.
  apply below_leb; [|exact N].
  change (float_Math_round (principal * 100) / 100) with (round2 principal).
  apply round2_below. rewrite accrue_spec. cbn [fst].
  pose proof (positive_in_range principal P) as I.
  pose proof (annualRate_finite rate R) as A.
  eapply below_trans; [apply (amountAfter_grows _ A), I|].
  apply closingAmount_grows; try assumption.
  - now apply monthlyRate_finite.
  - now apply amountAfter_in_range.
Qed.

Lemma final_amount_covers_principal_witness :
  exists res,
    calculateNepaliInterest 100000 3 "2078-01-01" "2080-04-04" = Return res
    /\ (float_Math_round (100000 * 100) / 100 <=? finalAmount res) = true.
Proof.
  eexists. split; [vm_compute; reflexivity|].
  apply (final_amount_covers_principal 100000 3 "2078-01-01" "2080-04-04");
    try (vm_compute; reflexivity); try (split; reflexivity);
    cbn; lia.
Defined.

#[local] Close Scope float_scope.
